(** * Card deck validation service: normalisation, validation, history

    A shallow embedding of the backend of the card game service
    ([src/backend/index.js], the variant with logging, history and the
    20-card gate) and the properties of its normaliser [preProcess], its
    validator [validateCards], its request handler for [POST /cards] and
    its history log.

    Conventions of the model.

    - A JavaScript string is the list of its UTF-16 code units.
    - A JavaScript number is represented by the value it denotes: a
      rational, or one of NaN, +Infinity, -Infinity.  The code only
      compares numbers with the constants 0, 3 and 9 and tests them for
      integrality, all of which are exact on binary64 values; the two
      zeros are not told apart by any of these operations. The one
      place where the code makes a number, [parseInt], rounds to
      binary64.
    - Arrays that the code mutates after sharing them (the [errors] array
      of a card) live in a store and are named by their location; card
      objects themselves are never mutated after they are shared, so they
      are records whose [errors] field holds a location.
    - The calls to the logger are left out: they write to the console and
      to a file and nothing reads them back. *)

From Stdlib Require Import ZArith NArith QArith List String Bool Lia.
From Stdlib Require Import DecimalNat.
From stdpp Require Import base tactics option list.

Open Scope N_scope.

(** ** JavaScript values *)

Definition JSString := list N.

(** The code units of an ASCII literal. *)
Definition js (s : string) : JSString :=
  map Ascii.N_of_ascii (list_ascii_of_string s).

Inductive JSNumber :=
| NaN
| Infinity (negative : bool)
| Finite (q : Q).

(** What [JSON.parse] and the body parsers deliver, and [undefined]. An
    object lists its own enumerable properties in the order in which
    [Object.values] enumerates them. *)
#[warnings="-register-all"]
Inductive JSValue :=
| VUndefined
| VNull
| VBool (b : bool)
| VNum (n : JSNumber)
| VStr (s : JSString)
| VArr (items : list JSValue)
| VObj (fields : list (JSString * JSValue)).

Inductive JSType := TUndefined | TObject | TBoolean | TNumber | TString.

#[global] Instance JSType_eq_dec : EqDecision JSType.
Proof. solve_decision. Defined.

Definition typeof (v : JSValue) : JSType :=
  match v with
  | VUndefined => TUndefined
  | VNull => TObject
  | VBool _ => TBoolean
  | VNum _ => TNumber
  | VStr _ => TString
  | VArr _ => TObject
  | VObj _ => TObject
  end.

Definition isArray (v : JSValue) : bool :=
  match v with VArr _ => true | _ => false end.

(** [v === null] *)
Definition isNull (v : JSValue) : bool :=
  match v with VNull => true | _ => false end.

Definition Qltb (a b : Q) : bool := negb (Qle_bool b a).

Definition isZero (n : JSNumber) : bool :=
  match n with Finite q => Qeq_bool q 0 | _ => false end.

(** ToBoolean *)
Definition truthy (v : JSValue) : bool :=
  match v with
  | VUndefined | VNull => false
  | VBool b => b
  | VNum NaN => false
  | VNum n => negb (isZero n)
  | VStr s => negb (bool_decide (s = []))
  | VArr _ | VObj _ => true
  end.

(** [a < b] on numbers *)
Definition num_ltb (a b : JSNumber) : bool :=
  match a, b with
  | NaN, _ | _, NaN => false
  | Infinity true, Infinity true => false
  | Infinity true, _ => true
  | _, Infinity true => false
  | Infinity false, _ => false
  | _, Infinity false => true
  | Finite x, Finite y => Qltb x y
  end.

(** [a === b] on numbers *)
Definition num_eqb (a b : JSNumber) : bool :=
  match a, b with
  | Finite x, Finite y => Qeq_bool x y
  | Infinity s, Infinity t => Bool.eqb s t
  | _, _ => false
  end.

(** [Number.isInteger] *)
Definition isInteger (n : JSNumber) : bool :=
  match n with
  | Finite q => (Qnum q mod Zpos (Qden q) =? 0)%Z
  | _ => false
  end.

Definition ofZ (z : Z) : JSNumber := Finite (inject_Z z).

(** [a < b] on strings: lexicographic on code units *)
Fixpoint str_ltb (a b : JSString) : bool :=
  match a, b with
  | _, [] => false
  | [], _ :: _ => true
  | x :: a', y :: b' => (x <? y) || ((x =? y) && str_ltb a' b')
  end.

(** ** The built-ins the normaliser calls *)

(** WhiteSpace and LineTerminator code units, as [trim], [Number] and
    [parseInt] strip them. *)
Definition isWhiteSpace (c : N) : bool :=
  (c =? 9) || (c =? 10) || (c =? 11) || (c =? 12) || (c =? 13) || (c =? 32)
  || (c =? 160) || (c =? 5760) || ((8192 <=? c) && (c <=? 8202))
  || (c =? 8232) || (c =? 8233) || (c =? 8239) || (c =? 8287)
  || (c =? 12288) || (c =? 65279).

Fixpoint trimStart (s : JSString) : JSString :=
  match s with
  | c :: r => if isWhiteSpace c then trimStart r else s
  | [] => []
  end.

Definition trimEnd (s : JSString) : JSString := rev (trimStart (rev s)).

Definition trim (s : JSString) : JSString := trimEnd (trimStart s).

Definition comma : N := 44.

(** [s.split(',')] *)
Fixpoint split (s : JSString) : list JSString :=
  match s with
  | [] => [[]]
  | c :: r =>
      if c =? comma then [] :: split r
      else match split r with
           | p :: ps => (c :: p) :: ps
           | [] => [[c]]
           end
  end.

Definition isDigit (c : N) : bool := (48 <=? c) && (c <=? 57).

Fixpoint skipDigits (s : JSString) : JSString :=
  match s with
  | c :: r => if isDigit c then skipDigits r else s
  | [] => []
  end.

Fixpoint takeDigits (s : JSString) : JSString :=
  match s with
  | c :: r => if isDigit c then c :: takeDigits r else []
  | [] => []
  end.

Definition allDigits (s : JSString) : bool := forallb isDigit s.

Definition isSign (c : N) : bool := (c =? 43) || (c =? 45).

(** ExponentPart, optional, up to the end of the text *)
Definition exponentOk (s : JSString) : bool :=
  match s with
  | [] => true
  | c :: r =>
      ((c =? 101) || (c =? 69)) &&
      let ds := match r with
                | x :: r' => if isSign x then r' else r
                | [] => r
                end in
      negb (bool_decide (ds = [])) && allDigits ds
  end.

(** StrUnsignedDecimalLiteral *)
Definition unsignedDecimal (s : JSString) : bool :=
  bool_decide (s = js "Infinity")
  || match s with
     | [] => false
     | c :: r =>
         if c =? 46 then
           match r with
           | d :: _ => isDigit d && exponentOk (skipDigits r)
           | [] => false
           end
         else
           isDigit c &&
           match skipDigits r with
           | x :: r' => if x =? 46 then exponentOk (skipDigits r')
                        else exponentOk (x :: r')
           | [] => true
           end
     end.

Definition isHexDigit (c : N) : bool :=
  isDigit c || ((65 <=? c) && (c <=? 70)) || ((97 <=? c) && (c <=? 102)).
Definition isOctalDigit (c : N) : bool := (48 <=? c) && (c <=? 55).
Definition isBinaryDigit (c : N) : bool := (48 <=? c) && (c <=? 49).

(** NonDecimalIntegerLiteral: 0x, 0o, 0b and their capitals *)
Definition nonDecimal (s : JSString) : bool :=
  match s with
  | z :: p :: d :: r =>
      (z =? 48) &&
      (  (((p =? 120) || (p =? 88)) && forallb isHexDigit (d :: r))
      || (((p =? 111) || (p =? 79)) && forallb isOctalDigit (d :: r))
      || (((p =? 98) || (p =? 66)) && forallb isBinaryDigit (d :: r)))
  | _ => false
  end.

(** Whether [Number(s)] is a number: [s] is, once trimmed, empty or a
    StrNumericLiteral. *)
Definition isNumeric (s : JSString) : bool :=
  match trim s with
  | [] => true
  | c :: r =>
      nonDecimal (c :: r)
      || (if isSign c then unsignedDecimal r else unsignedDecimal (c :: r))
  end.

(** [isNaN(s)] for a string [s] *)
Definition isNaN (s : JSString) : bool := negb (isNumeric s).

Fixpoint digitsValue (acc : Z) (ds : JSString) : Z :=
  match ds with
  | [] => acc
  | d :: r => digitsValue (10 * acc + Z.of_N (d - 48)) r
  end.

(** The Number value for an integer: the integer itself up to 2^53, and
    beyond that the nearest binary64, ties going to the even significand,
    or an infinity from 2^1024 - 2^970 on. *)
Definition number64 (z : Z) : JSNumber :=
  if (Z.abs z <=? 2 ^ 53)%Z then ofZ z
  else
    let n := Z.abs z in
    let e := (Z.log2 n - 52)%Z in       (* n has 53 + e bits *)
    let q := (n / 2 ^ e)%Z in           (* the 53 leading bits *)
    let r := (n mod 2 ^ e)%Z in
    let half := (2 ^ (e - 1))%Z in
    let q' := if (half <? r)%Z || ((r =? half)%Z && Z.odd q)
              then (q + 1)%Z else q in
    let m := (q' * 2 ^ e)%Z in
    if (2 ^ 1024 <=? m)%Z then Infinity (z <? 0)%Z
    else ofZ (Z.sgn z * m).

(** [parseInt(s, 10)]: the Number value for the integer the leading
    digits denote, NaN when there is none. *)
Definition parseInt (s : JSString) : JSNumber :=
  let s1 := trimStart s in
  let '(sign, s2) :=
    match s1 with
    | c :: r => if c =? 45 then ((-1)%Z, r)
                else if c =? 43 then (1%Z, r) else (1%Z, s1)
    | [] => (1%Z, s1)
    end in
  match takeDigits s2 with
  | [] => NaN
  | ds => number64 (sign * digitsValue 0 ds)
  end.

(** ** The store, the history log and the state monad *)

Abbreviation loc := nat (only parsing).

(** One line of [cardHistory]; [entry_errors] is the very array the card
    holds, not a copy. *)
Record HistoryEntry := mkEntry {
  deckId : JSString;
  cardId : nat;
  entry_alphabet : JSValue;
  entry_number : JSValue;
  entry_errors : option loc
}.

Record State := mkState {
  heap : list (list string);        (* the arrays of error messages *)
  cardHistory : list HistoryEntry;  (* the global [cardHistory] *)
  uuidCalls : nat                   (* how many ids [uuidv1] has issued *)
}.

Definition initialState : State := mkState [] [] 0.

Definition M (A : Type) : Type := State -> A * State.

Definition ret {A} (a : A) : M A := fun st => (a, st).

Definition bind {A B} (m : M A) (f : A -> M B) : M B :=
  fun st => let '(a, st') := m st in f a st'.

Notation "'let*' x ':=' m 'in' k" := (bind m (fun x => k))
  (at level 10, x name, m at level 100, k at level 200).

Definition withHeap (f : list (list string) -> list (list string)) (st : State)
  : State :=
  mkState (f (heap st)) (cardHistory st) (uuidCalls st).

(** An array literal: a fresh array. *)
Definition newArray (es : list string) : M loc :=
  fun st => (length (heap st), withHeap (fun h => h ++ [es]) st).

(** [a.push(msg)] *)
Definition push (a : loc) (msg : string) : M unit :=
  fun st => (tt, withHeap (alter (fun es => es ++ [msg]) a) st).

Fixpoint traverse {A B} (f : A -> M B) (l : list A) : M (list B) :=
  match l with
  | [] => ret []
  | x :: r => let* y := f x in let* ys := traverse f r in ret (y :: ys)
  end.

(** [l.map((x, index) => f(x, index))], counting from [i] *)
Fixpoint traverseFrom {A B} (f : A -> nat -> M B) (i : nat) (l : list A)
  : M (list B) :=
  match l with
  | [] => ret []
  | x :: r =>
      let* y := f x i in let* ys := traverseFrom f (S i) r in ret (y :: ys)
  end.

(** ** Cards *)

Record Card := mkCard {
  id : nat;
  alphabet : JSValue;
  number : JSValue;
  errors : option loc   (* [None]: the field is missing *)
}.

Definition dquote : string := String (Ascii.ascii_of_nat 34) EmptyString.

Definition msgString : string := "Invalid format for input string.".
Definition msgArray : string := "Invalid format for input array.".
Definition msgObject : string := "Invalid format for input object.".
Definition msgUnknown : string := "Unknown input type and format.".
Definition msgLetter : string := "Card must have a single Alphabet A-Z.".
Definition msgNumber : string := "Number must be between 0-9.".
Definition msgPairing : string :=
  Eval cbv in
    ("Card " ++ dquote ++ "D" ++ dquote ++ " must have the number 3.")%string.

(** ** preProcess *)

(** The body of [parts.forEach] *)
Definition scanPart (acc : JSValue * JSValue) (part : JSString)
  : JSValue * JSValue :=
  let '(alphabet, number) := acc in
  if negb (truthy alphabet) && isNaN part then (VStr part, number)
  else if isNull number && negb (isNaN part) then
    (alphabet, VNum (parseInt part))
  else (alphabet, number).

(** The body of [card.forEach] and of [Object.values(card).forEach] *)
Definition scanItem (acc : JSValue * JSValue) (item : JSValue)
  : JSValue * JSValue :=
  let '(alphabet, number) := acc in
  if negb (truthy alphabet) && bool_decide (typeof item = TString) then
    (item, number)
  else if isNull number && bool_decide (typeof item = TNumber) then
    (alphabet, item)
  else (alphabet, number).

(** The common tail of the three branches: both faces or a parse error *)
Definition finish (id : nat) (found : JSValue * JSValue) (msg : string)
  : M Card :=
  let '(alphabet, number) := found in
  if negb (truthy alphabet) || isNull number then
    let* errors := newArray [msg] in
    ret (mkCard id VNull VNull (Some errors))
  else
    let* errors := newArray [] in
    ret (mkCard id alphabet number (Some errors)).

Definition preProcess (card : JSValue) (id : nat) : M Card :=
  match card with
  | VStr s =>
      let parts := map trim (split s) in
      finish id (fold_left scanPart parts (VNull, VNull)) msgString
  | VArr items =>
      finish id (fold_left scanItem items (VNull, VNull)) msgArray
  | VObj fields =>
      finish id (fold_left scanItem (map snd fields) (VNull, VNull)) msgObject
  | _ =>
      let* errors := newArray [msgUnknown] in
      ret (mkCard id VNull VNull (Some errors))
  end.

(** ** validateCards *)

(** [a === b] when one side is a primitive; objects and arrays are equal
    only to themselves and are never compared by this program. *)
Definition strictEq (a b : JSValue) : bool :=
  match a, b with
  | VUndefined, VUndefined => true
  | VNull, VNull => true
  | VBool x, VBool y => Bool.eqb x y
  | VNum x, VNum y => num_eqb x y
  | VStr x, VStr y => bool_decide (x = y)
  | _, _ => false
  end.

Definition letterInvalid (card : Card) : bool :=
  match alphabet card with
  | VStr s =>
      negb (length s =? 1)%nat || str_ltb s (js "A") || str_ltb (js "Z") s
  | _ => true   (* null, or typeof is not 'string' *)
  end.

Definition numberInvalid (card : Card) : bool :=
  match number card with
  | VNum n => num_ltb n (ofZ 0) || num_ltb (ofZ 9) n || negb (isInteger n)
  | _ => true   (* null, or typeof is not 'number' *)
  end.

Definition pairingInvalid (card : Card) : bool :=
  strictEq (alphabet card) (VStr (js "D"))
  && negb (strictEq (number card) (VNum (ofZ 3))).

(** [if (!card.errors) card.errors = []; card.errors.push(msg)]: returns
    the card object as the statement leaves it. *)
Definition pushError (card : Card) (msg : string) : M Card :=
  match errors card with
  | Some a => let* _ := push a msg in ret card
  | None =>
      let* a := newArray [] in
      let* _ := push a msg in
      ret (mkCard (id card) (alphabet card) (number card) (Some a))
  end.

Definition when (b : bool) (card : Card) (msg : string) : M Card :=
  if b then pushError card msg else ret card.

(** The callback of [cards.map] in [validateCards]. [validationResult] is
    a shallow copy: it has the fields [card] has at that moment, the same
    [errors] array included. *)
Definition validateCard (card : Card) : M Card :=
  if isNull (alphabet card) && isNull (number card) then ret card
  else
    let validationResult := card in
    let* card := when (letterInvalid card) card msgLetter in
    let* card := when (numberInvalid card) card msgNumber in
    let* card := when (pairingInvalid card) card msgPairing in
    ret validationResult.

Definition validateCards (cards : list Card) : M (list Card) :=
  traverse validateCard cards.

(** ** The request handlers *)

(** A card as [res.json] serialises it: the [errors] array is read at
    that moment. *)
Record CardJSON := mkCardJSON {
  json_id : nat;
  json_alphabet : JSValue;
  json_number : JSValue;
  json_errors : option (list string)
}.

Definition readErrors (h : list (list string)) (a : option loc)
  : option (list string) :=
  match a with Some a => h !! a | None => None end.

Definition snapshot (h : list (list string)) (card : Card) : CardJSON :=
  mkCardJSON (id card) (alphabet card) (number card)
    (readErrors h (errors card)).

(** The reply: a status and the fields of the JSON body that are present. *)
Record Response := mkResponse {
  status : nat;
  error : option string;
  validationResult : option string;
  discardCount : option nat;
  invalidCards : option (list CardJSON)
}.

Definition errorResponse (msg : string) : Response :=
  mkResponse 400 (Some msg) None None None.

(** What reaches the handler once express has decoded the body. *)
Inductive Request :=
| JsonRequest (cards : JSValue)          (* application/json: [req.body.cards] *)
| TextRequest (parsed : option JSValue)  (* text/plain: [JSON.parse(req.body)],
                                            [None] when it throws *)
| OtherRequest.

(** [card.errors && card.errors.length > 0] *)
Definition hasErrors (h : list (list string)) (card : Card) : bool :=
  match readErrors h (errors card) with
  | Some es => (0 <? length es)%nat
  | None => false
  end.

Definition filterInvalid (cards : list Card) : M (list Card) :=
  fun st => (List.filter (hasErrors (heap st)) cards, st).

Definition json (f : list (list string) -> Response) : M Response :=
  fun st => (f (heap st), st).

(** One line of the reply of [GET /history] *)
Record EntryJSON := mkEntryJSON {
  json_deckId : JSString;
  json_cardId : nat;
  json_entry_alphabet : JSValue;
  json_entry_number : JSValue;
  json_entry_errors : option (list string)
}.

Definition entrySnapshot (h : list (list string)) (e : HistoryEntry)
  : EntryJSON :=
  mkEntryJSON (deckId e) (cardId e) (entry_alphabet e) (entry_number e)
    (readErrors h (entry_errors e)).

(** [GET /history] *)
Definition getHistory (st : State) : list EntryJSON :=
  map (entrySnapshot (heap st)) (cardHistory st).

Section Service.

(** The identifier generator of the [uuid] package: [uuidv1 n] is the
    identifier its call number [n] returns. *)
Variable uuidv1 : nat -> JSString.

(** [saveHistory]. The mutex is free whenever a request is handled (a
    handler runs to completion and so does the continuation of the
    [await]), so the body runs once, after the reply is built and
    before the next request. *)
Definition saveHistory (scannedCards : list Card) : M unit :=
  fun st =>
    let deckId := uuidv1 (uuidCalls st) in
    (tt,
     mkState (heap st)
       (cardHistory st ++
          map (fun card =>
                 mkEntry deckId (id card) (alphabet card) (number card)
                   (errors card))
            scannedCards)
       (S (uuidCalls st))).

(** [app.post('/cards', ...)] *)
Definition postCards (req : Request) : M Response :=
  let decoded :=
    match req with
    | JsonRequest cards => inr cards
    | TextRequest (Some cards) => inr cards
    | TextRequest None => inl "Invalid JSON format in text input."%string
    | OtherRequest => inl "Unsupported input type."%string
    end in
  match decoded with
  | inl msg => ret (errorResponse msg)
  | inr (VArr cards) =>
      if negb (length cards =? 20)%nat then
        ret (mkResponse 400 None (Some "The deck must have 20 cards."%string)
               None None)
      else
        let* cleanedCards := traverseFrom preProcess 0 cards in
        let* validatedCards := validateCards cleanedCards in
        let* invalidCards := filterInvalid validatedCards in
        let* _ := saveHistory validatedCards in
        if (0 <? length invalidCards)%nat then
          json (fun h =>
                  mkResponse 400 None (Some "Invalid card data."%string)
                    (Some (length invalidCards))
                    (Some (map (snapshot h) invalidCards)))
        else
          ret (mkResponse 200 None (Some "Deck is valid"%string) None None)
  | inr _ => ret (errorResponse "Input must be an array of cards")
  end.

(** The states the service goes through after [st]: one request after
    the other. [GET /history] leaves the state as it is. *)
Inductive later (st : State) : State -> Prop :=
| later_refl : later st st
| later_step req st1 :
    later st st1 -> later st (snd (postCards req st1)).

Definition reachable (st : State) : Prop := later initialState st.

(** Every entry names an array of the store and carries an identifier
    the generator has already issued. *)
Definition historyOk (st : State) : Prop :=
  forall e, e ∈ cardHistory st ->
    (exists a, entry_errors e = Some a /\ (a < length (heap st))%nat)
    /\ (exists k, (k < uuidCalls st)%nat /\ deckId e = uuidv1 k).

End Service.

(** ** One card on its own

    The card as the reply would show it when the normaliser and the
    validator run on it alone, from an empty store. *)
Definition processCard (raw : JSValue) (i : nat) : CardJSON :=
  let '(card, st) := preProcess raw i initialState in
  let '(card', st') := validateCard card st in
  snapshot (heap st') card'.

(** The fields of the card the normaliser returns *)
Definition normalized (raw : JSValue) : JSValue * JSValue :=
  let card := fst (preProcess raw 0 initialState) in
  (alphabet card, number card).

(** ** Sample inputs *)

Definition num (z : Z) : JSValue := VNum (ofZ z).

(** A record of two fields *)
Definition obj2 (k1 : string) (v1 : JSValue) (k2 : string) (v2 : JSValue)
  : JSValue := VObj [(js k1, v1); (js k2, v2)].

(** The deck the form of the front end is prepopulated with *)
Definition sampleDeck : list JSValue :=
  [ obj2 "sideA" (VStr (js "D")) "sideB" (num 3);
    VArr [num 5; VStr (js "A")];
    VStr (js "B,2");
    obj2 "Alphabet" (VStr (js "C")) "Number" (num 28);
    VArr [VStr (js "X"); num 4];
    VStr (js "D,4");
    obj2 "sideB" (num 9) "sideA" (VStr (js "Y"));
    VArr [VStr (js "Z"); num 1];
    VStr (js "M,8");
    obj2 "sideA" (VStr (js "P")) "sideB" (num 4);
    VArr [VStr (js "Q"); num 6];
    VStr (js "V,3");
    obj2 "sideA" (VStr (js "D")) "sideB" (num 3);
    VArr [VStr (js "E"); num 0];
    VStr (js "R,7");
    obj2 "sideA" (VStr (js "T")) "sideB" (num 2);
    VArr [VStr (js "J"); num 3];
    VStr (js "Test");
    obj2 "sideA" (VStr (js "W")) "sideB" (num 6);
    VArr [VStr (js "Z"); num 9] ].

(** Twenty valid cards *)
Definition validDeck : list JSValue := repeat (VStr (js "A,1")) 20.

(** A generator that never repeats itself, for the examples *)
Definition testIds (n : nat) : JSString := js "deck-" ++ [N.of_nat n].

(** ** The first versions of the normaliser and the validator

    The normaliser of the first version of the service
    ([src/backend/index.js], lines 42-66) reads fixed positions and fixed
    keys; the validator the next version adds to it keeps one [error] per
    card. They share no state with the rest. *)
Module Strict.

Record Card := mkCard {
  alphabet : JSValue;
  number : JSValue;
  error : option string   (* [None]: the object has no such property *)
}.

Definition invalid (msg : string) : Card := mkCard VNull VNull (Some msg).

(** [card.key] on an object that [JSON.parse] built: the own property,
    or [undefined]. *)
Definition getProp (fields : list (JSString * JSValue)) (key : string)
  : JSValue :=
  match List.find (fun kv => bool_decide (fst kv = js key)) fields with
  | Some kv => snd kv
  | None => VUndefined
  end.

(** [preProcess]; [fallback] is the message of the last branch, 'Invalid
    format' in the first version and 'Invalid input format' in the
    second. *)
Definition preProcess (fallback : string) (card : JSValue) : Card :=
  match card with
  | VStr s =>
      (* const [alphabet, number] = card.split(',') *)
      let parts := split s in
      match nth_error parts 0, nth_error parts 1 with
      | Some alphabet, Some number =>
          if bool_decide (alphabet = []) || bool_decide (number = [])
             || isNaN number
          then invalid "Invalid format"
          else mkCard (VStr (trim alphabet)) (VNum (parseInt (trim number)))
                 None
      | _, _ => invalid "Invalid format"   (* a part is undefined *)
      end
  | VArr items =>
      let card0 := nth 0 items VUndefined in
      let card1 := nth 1 items VUndefined in
      if negb (length items =? 2)%nat
         || negb (bool_decide (typeof card0 = TString))
         || negb (bool_decide (typeof card1 = TNumber))
      then invalid "Invalid format"
      else mkCard card0 card1 None
  | VObj fields =>
      let a := getProp fields "alphabet" in
      let n := getProp fields "number" in
      if negb (truthy a) || negb (truthy n)
         || negb (bool_decide (typeof a = TString))
         || negb (bool_decide (typeof n = TNumber))
      then invalid "Invalid format"
      else mkCard a n None
  | _ => invalid fallback
  end.

Definition isUpper (c : N) : bool := (65 <=? c) && (c <=? 90).

(** [/[A-Z]/.test(v)]: [v] is converted to a string first. The string of
    a number has a capital only for NaN and the infinities, that of an
    object is "[object Object]", that of an array joins those of its
    elements. *)
Fixpoint testUpper (v : JSValue) : bool :=
  match v with
  | VStr s => existsb isUpper s
  | VNum NaN => true
  | VNum (Infinity _) => true
  | VNum (Finite _) => false
  | VObj _ => true
  | VArr items => existsb testUpper items
  | VUndefined | VNull | VBool _ => false
  end.

Definition msgLetter : string := "Card must have an Alphabet A-Z.".

Definition letterInvalid (card : Card) : bool :=
  isNull (alphabet card) || negb (testUpper (alphabet card)).

Definition numberInvalid (card : Card) : bool :=
  match number card with
  | VNum n => num_ltb n (ofZ 0) || num_ltb (ofZ 9) n || negb (isInteger n)
  | _ => true   (* null, or typeof is not 'number' *)
  end.

Definition pairingInvalid (card : Card) : bool :=
  strictEq (alphabet card) (VStr (js "D"))
  && negb (strictEq (number card) (VNum (ofZ 3))).

(** [if (card.error)] *)
Definition hasError (card : Card) : bool :=
  match error card with
  | Some (String _ _) => true
  | Some EmptyString | None => false
  end.

(** [validationResult.error = msg] *)
Definition setError (validationResult : Card) (msg : string) : Card :=
  mkCard (alphabet validationResult) (number validationResult) (Some msg).

(** The callback of [cards.map] in [validateCards] *)
Definition validateCard (card : Card) : Card :=
  if hasError card then card
  else
    let validationResult := card in
    let validationResult :=
      if letterInvalid card then setError validationResult msgLetter
      else validationResult in
    let validationResult :=
      if numberInvalid card then setError validationResult msgNumber
      else validationResult in
    let validationResult :=
      if pairingInvalid card then setError validationResult msgPairing
      else validationResult in
    validationResult.

Definition validateCards (cards : list Card) : list Card :=
  map validateCard cards.

End Strict.

Close Scope N_scope.

(** * Vocabulary of the statements *)

(** ** The outcome of a run *)

(** The messages the normaliser leaves in the card's [errors] array *)
Definition parseErrors (raw : JSValue) : list string :=
  concat (heap (snd (preProcess raw 0 initialState))).

(** The four parse messages, one per branch of the normaliser *)
Definition parseMessages : list string :=
  [msgString; msgArray; msgObject; msgUnknown].

(** The messages of the rules a card breaks, in the order of the checks;
    none for a card that is skipped. *)
Definition ruleErrors (card : Card) : list string :=
  if isNull (alphabet card) && isNull (number card) then []
  else (if letterInvalid card then [msgLetter] else [])
       ++ (if numberInvalid card then [msgNumber] else [])
       ++ (if pairingInvalid card then [msgPairing] else []).

(** The card the normaliser returns for element [k] when the store had
    [base] arrays before the batch. *)
Definition cleaned (base : nat) (k : nat) (raw : JSValue) : Card :=
  mkCard k (fst (normalized raw)) (snd (normalized raw)) (Some (base + k)%nat).

(** All the messages of a card: its parse error or the rules it breaks *)
Definition finalErrors (raw : JSValue) : list string :=
  parseErrors raw ++ ruleErrors (cleaned 0 0 raw).

(** ** The rules in the words of the specification *)

(** The value is a one-character string whose character is in A-Z. *)
Definition singleUppercase (v : JSValue) : Prop :=
  exists c : N, v = VStr [c] /\ (65 <= c <= 90)%N.

(** The value is a number and that number is the integer [z]. *)
Definition isIntegerValue (v : JSValue) (z : Z) : Prop :=
  exists q : Q, v = VNum (Finite q) /\ (q == inject_Z z)%Q.

(** The value is an integer in [0, 9]. *)
Definition digit0to9 (v : JSValue) : Prop :=
  exists z : Z, isIntegerValue v z /\ (0 <= z <= 9)%Z.

(** ** Requests and replies *)

(** The request carries [cards] in one of the two encodings. *)
Definition submits (req : Request) (cards : JSValue) : Prop :=
  req = JsonRequest cards \/ req = TextRequest (Some cards).

(** [card.errors && card.errors.length > 0] on a serialised card *)
Definition hasErrorsJSON (c : CardJSON) : bool :=
  match json_errors c with
  | Some es => (0 <? length es)%nat
  | None => false
  end.

(** The cards of a batch, each processed on its own *)
Definition processed (raws : list JSValue) : list CardJSON :=
  imap (fun k raw => processCard raw k) raws.

Definition entryOf (deck : JSString) (card : Card) : HistoryEntry :=
  mkEntry deck (id card) (alphabet card) (number card) (errors card).

Definition rejection : Response :=
  mkResponse 400 None (Some "The deck must have 20 cards."%string) None None.

Definition acceptance : Response :=
  mkResponse 200 None (Some "Deck is valid"%string) None None.

Definition failure (invalid : list CardJSON) : Response :=
  mkResponse 400 None (Some "Invalid card data."%string)
    (Some (length invalid)) (Some invalid).

(** ** Delimited strings and decimal text *)

(** The trimmed parts of a delimited string *)
Definition stringParts (s : JSString) : list JSString := map trim (split s).

(** [!isNaN(p)] *)
Definition numericPart (p : JSString) : bool := negb (isNaN p).

Definition letterOf (o : option JSString) : JSValue :=
  match o with Some s => VStr s | None => VNull end.

Definition digitOf (o : option JSString) : JSValue :=
  match o with Some t => VNum (parseInt t) | None => VNull end.

Definition orElse {A} (o o' : option A) : option A :=
  match o with Some _ => o | None => o' end.

(** The code units of a sequence of decimal digits *)
Fixpoint uintUnits (u : Decimal.uint) : JSString :=
  match u with
  | Decimal.Nil => []
  | Decimal.D0 u => 48%N :: uintUnits u
  | Decimal.D1 u => 49%N :: uintUnits u
  | Decimal.D2 u => 50%N :: uintUnits u
  | Decimal.D3 u => 51%N :: uintUnits u
  | Decimal.D4 u => 52%N :: uintUnits u
  | Decimal.D5 u => 53%N :: uintUnits u
  | Decimal.D6 u => 54%N :: uintUnits u
  | Decimal.D7 u => 55%N :: uintUnits u
  | Decimal.D8 u => 56%N :: uintUnits u
  | Decimal.D9 u => 57%N :: uintUnits u
  end.

(** The decimal digits of a natural number, without leading zeros *)
Definition digitsText (n : nat) : JSString := uintUnits (Nat.to_uint n).

(** An integer in decimal: a minus sign when negative, then the digits *)
Definition decimal (z : Z) : JSString :=
  (if (z <? 0)%Z then [45%N] else []) ++ digitsText (Z.abs_nat z).

(** A text the string shape can carry as the letter: not numeric, no
    comma, no white space around it. *)
Definition letterText (l : JSString) : Prop :=
  isNaN l = true /\ (comma ∉ l) /\ trim l = l.

(** The code units of a numeral: digits, the minus sign and the point *)
Definition numeralUnit (c : N) : bool := isDigit c || (c =? 45)%N || (c =? 46)%N.

(** A numeral: an optional minus sign, digits, and either nothing or a
    point and more digits. *)
Definition numeral (neg : bool) (ds tail : JSString) : JSString :=
  (if neg then [45%N] else []) ++ ds ++ tail.

Definition fractionTail (tail : JSString) : Prop :=
  tail = [] \/ exists fs, tail = 46%N :: fs /\ allDigits fs = true.

(** The letter and digit of a processed card as a loose record *)
Definition feedBack (c : CardJSON) : JSValue :=
  VObj [(js "letter", json_alphabet c); (js "digit", json_number c)].

(** The parse message of each shape *)
Definition shapeMessage (raw : JSValue) : string :=
  match raw with
  | VStr _ => msgString
  | VArr _ => msgArray
  | VObj _ => msgObject
  | _ => msgUnknown
  end.

(** The faces the loops hold are null or of the type they test for. *)
Definition faces (acc : JSValue * JSValue) : Prop :=
  (fst acc = VNull \/ exists l, fst acc = VStr l)
  /\ (snd acc = VNull \/ exists x, snd acc = VNum x).

(** The entries a batch of 20 adds, as [GET /history] shows them *)
Definition batchEntries (deck : JSString) (raws : list JSValue)
  : list EntryJSON :=
  imap (fun k raw =>
          mkEntryJSON deck k (json_alphabet (processCard raw k))
            (json_number (processCard raw k))
            (json_errors (processCard raw k))) raws.

(** ** Sequences, records and whole decks *)

Definition nonEmptyString (v : JSValue) : bool :=
  match v with VStr (_ :: _) => true | _ => false end.

Definition isNumberValue (v : JSValue) : bool :=
  match v with VNum _ => true | _ => false end.

(** The values the loop of the sequence and record branches goes over *)
Definition itemsOf (raw : JSValue) : option (list JSValue) :=
  match raw with
  | VArr items => Some items
  | VObj fields => Some (map snd fields)
  | _ => None
  end.

(** The faces of a card that breaks no rule *)
Definition validFaces (faces : JSValue * JSValue) : Prop :=
  singleUppercase (fst faces) /\ digit0to9 (snd faces)
  /\ (fst faces = VStr (js "D") -> isIntegerValue (snd faces) 3).

(** The store of [st'] holds the arrays of [st], each with its former
    content at the front, and the rest of the state is the same. *)
Definition extends (st st' : State) : Prop :=
  cardHistory st' = cardHistory st
  /\ uuidCalls st' = uuidCalls st
  /\ forall a es, heap st !! a = Some es ->
       exists more, heap st' !! a = Some (es ++ more).

(** The error lists a processed card can carry *)
Definition possibleErrors (raw : JSValue) : list (list string) :=
  [ [shapeMessage raw]; []; [msgLetter]; [msgNumber]; [msgPairing];
    [msgLetter; msgNumber]; [msgNumber; msgPairing] ].

(** The message for a request that does not carry an array *)
Definition badRequestMessage (req : Request) : string :=
  match req with
  | OtherRequest => "Unsupported input type."
  | TextRequest None => "Invalid JSON format in text input."
  | _ => "Input must be an array of cards"
  end.

(** How the history is laid out: one array of the store per entry, in
    the same order, twenty entries per identifier issued, numbered from 0
    to 19. *)
Definition historyLayout (uuidv1 : nat -> JSString) (st : State) : Prop :=
  length (heap st) = length (cardHistory st)
  /\ length (cardHistory st) = 20 * uuidCalls st
  /\ forall j e, cardHistory st !! j = Some e ->
       cardId e = j mod 20 /\ deckId e = uuidv1 (j / 20)
       /\ entry_errors e = Some j.

(** * Properties *)

(** ** The built-ins on examples *)

Example split_ex : split (js "A, 2,,x") = [js "A"; js " 2"; js ""; js "x"].
Proof. reflexivity. Qed.
Example trim_ex : trim (js "  a b ") = js "a b".
Proof. reflexivity. Qed.
Example isNaN_ex :
  map isNaN [js "A"; js ""; js " "; js "2.7"; js ".7"; js "-1e3"; js "0x1F";
             js "Infinity"; js "1 2"; js "+"; js "0x"; js "2."; js "1e"]
  = [true; false; false; false; false; false; false; false; true; true; true;
     false; true].
Proof. reflexivity. Qed.
Example parseInt_rounds :
  map parseInt
    [ js "9007199254740992"; js "9007199254740993"; js "9007199254740995";
      js "-9007199254740993"; js "1000000000000000000000" ]
  = [ ofZ 9007199254740992; ofZ 9007199254740992; ofZ 9007199254740996;
      ofZ (-9007199254740992); ofZ (10 ^ 21) ].
Proof. vm_compute. reflexivity. Qed.
Example number64_overflows :
  map number64 [2 ^ 1024 - 2 ^ 970 - 1; 2 ^ 1024 - 2 ^ 970; - 10 ^ 400]%Z
  = [ ofZ (2 ^ 1024 - 2 ^ 971); Infinity false; Infinity true ].
Proof. vm_compute. reflexivity. Qed.
Example parseInt_ex :
  map parseInt [js "2.7"; js ".7"; js "-12abc"; js ""; js " 42"; js "0x1F"]
  = [ofZ 2; NaN; ofZ (-12); NaN; ofZ 42; ofZ 0].
Proof. reflexivity. Qed.

(** ** Running the normaliser *)

Lemma finish_run i found msg st :
  finish i found msg st =
  (mkCard i (alphabet (fst (finish 0 found msg initialState)))
     (number (fst (finish 0 found msg initialState)))
     (Some (length (heap st))),
   withHeap
     (fun h => h ++ [concat (heap (snd (finish 0 found msg initialState)))])
     st).
Proof.
  destruct found as [a n]. unfold finish.
  destruct (negb (truthy a) || isNull n); reflexivity.
Qed.

(** [preProcess] allocates exactly one array, at the first free location,
    and its result does not otherwise depend on the store or the index. *)
Lemma preProcess_run raw i st :
  preProcess raw i st =
  (mkCard i (fst (normalized raw)) (snd (normalized raw))
     (Some (length (heap st))),
   withHeap (fun h => h ++ [parseErrors raw]) st).
Proof.
  unfold normalized, parseErrors.
  destruct raw; try reflexivity; unfold preProcess; apply finish_run.
Qed.

Lemma finish_cases found msg :
  let r := finish 0 found msg initialState in
  (truthy (alphabet (fst r)) = true /\ isNull (number (fst r)) = false
   /\ fst r = mkCard 0 (fst found) (snd found) (Some 0%nat)
   /\ truthy (fst found) = true /\ isNull (snd found) = false
   /\ heap (snd r) = [[]])
  \/ (alphabet (fst r) = VNull /\ number (fst r) = VNull
      /\ (truthy (fst found) = false \/ isNull (snd found) = true)
      /\ heap (snd r) = [[msg]]).
Proof.
  destruct found as [a n]. unfold finish. cbn [fst snd].
  destruct (truthy a) eqn:Ha, (isNull n) eqn:Hn; cbn; auto 10.
Qed.

(** A card either has both faces and no parse error, or no face and one
    parse error. *)
Lemma normalized_cases raw :
  (truthy (fst (normalized raw)) = true
   /\ isNull (snd (normalized raw)) = false /\ parseErrors raw = [])
  \/ (normalized raw = (VNull, VNull)
      /\ exists msg, msg ∈ parseMessages /\ parseErrors raw = [msg]).
Proof.
  unfold normalized, parseErrors, parseMessages.
  destruct raw; cbn [preProcess];
    try (right; split; [reflexivity | exists msgUnknown; split;
                                      [repeat constructor | reflexivity]]).
  all: match goal with
       | |- context [finish 0%nat ?f ?m initialState] =>
           destruct (finish_cases f m)
             as [(Ht & Hn & _ & _ & _ & ->) | (Ha & Hn & _ & ->)]
       end.
  all: try (left; cbn [fst snd]; auto; fail).
  all: right; cbn [fst snd]; rewrite Ha, Hn; split; [reflexivity |];
       eexists; (split; [| reflexivity]); repeat constructor.
Qed.

(** ** Running the validator *)

Lemma withHeap_id f st : (forall h, f h = h) -> withHeap f st = st.
Proof. intros H. destruct st. unfold withHeap. cbn. by rewrite H. Qed.

Lemma withHeap_withHeap f g st :
  withHeap f (withHeap g st) = withHeap (fun h => f (g h)) st.
Proof. reflexivity. Qed.

Lemma withHeap_ext f g st :
  f (heap st) = g (heap st) -> withHeap f st = withHeap g st.
Proof. intros H. unfold withHeap. by rewrite H. Qed.

Lemma when_run b card msg a st :
  errors card = Some a ->
  when b card msg st =
  (card, withHeap (alter (fun es => es ++ (if b then [msg] else [])) a) st).
Proof.
  intros Ha. unfold when, pushError, push, bind, ret. rewrite Ha.
  destruct b; [reflexivity |].
  f_equal. symmetry. apply withHeap_id. intros h.
  apply list_alter_id. intros es. apply app_nil_r.
Qed.

(** A card that has an [errors] array comes back as it is, and the shared
    array has grown by the messages of the rules it breaks: the pushes go
    through [card.errors], which the copy shares. *)
Lemma validateCard_run card a st :
  errors card = Some a ->
  validateCard card st =
  (card, withHeap (alter (fun es => es ++ ruleErrors card) a) st).
Proof.
  intros Ha. unfold validateCard, ruleErrors.
  destruct (isNull (alphabet card) && isNull (number card)).
  { unfold ret. f_equal. symmetry. apply withHeap_id. intros h.
    apply list_alter_id. intros es. apply app_nil_r. }
  unfold bind.
  rewrite (when_run _ _ _ a) by assumption.
  rewrite (when_run _ _ _ a) by assumption.
  rewrite (when_run _ _ _ a) by assumption.
  unfold ret. f_equal. rewrite !withHeap_withHeap. apply withHeap_ext.
  rewrite !list_alter_alter_eq. apply list_alter_ext; [| reflexivity].
  intros es _. cbn. by rewrite <- !app_assoc.
Qed.

(** What comes back is always the copy made before the checks, and it
    has the fields the card had on entry. For a card without an [errors]
    field the messages go to an array that only the original object gets,
    so the copy shows none. *)
Lemma validateCard_fst card st : fst (validateCard card st) = card.
Proof.
  unfold validateCard.
  destruct (isNull (alphabet card) && isNull (number card)); [reflexivity |].
  unfold bind.
  destruct (when _ card msgLetter st) as [c1 st1].
  destruct (when _ c1 msgNumber st1) as [c2 st2].
  destruct (when _ c2 msgPairing st2) as [c3 st3].
  reflexivity.
Qed.

Lemma ruleErrors_ext c c' :
  alphabet c = alphabet c' -> number c = number c' ->
  ruleErrors c = ruleErrors c'.
Proof.
  intros Ha Hn.
  unfold ruleErrors, letterInvalid, numberInvalid, pairingInvalid.
  by rewrite Ha, Hn.
Qed.

(** ** Running the two over a batch *)

Lemma preProcess_all raws : forall i st,
  traverseFrom preProcess i raws st =
  (imap (fun k raw =>
           mkCard (i + k) (fst (normalized raw)) (snd (normalized raw))
             (Some (length (heap st) + k)%nat)) raws,
   withHeap (fun h => h ++ map parseErrors raws) st).
Proof.
  induction raws as [|raw raws IH]; intros i st.
  - cbn. unfold ret. f_equal. symmetry. apply withHeap_id.
    intros h. apply app_nil_r.
  - cbn [traverseFrom]. unfold bind at 1. rewrite preProcess_run.
    unfold bind at 1. rewrite IH. unfold ret.
    rewrite imap_cons. f_equal.
    + f_equal; [by rewrite !Nat.add_0_r |].
      apply imap_ext. intros k x _. cbn. rewrite length_app. cbn.
      f_equal; [lia | f_equal; lia].
    + rewrite withHeap_withHeap. apply withHeap_ext.
      cbn. by rewrite <- app_assoc.
Qed.

Lemma validateCards_run cards : forall h0 ess hist n,
  length ess = length cards ->
  (forall k c, cards !! k = Some c -> errors c = Some (length h0 + k)%nat) ->
  validateCards cards (mkState (h0 ++ ess) hist n) =
  (cards,
   mkState (h0 ++ zip_with (fun es c => es ++ ruleErrors c) ess cards) hist n).
Proof.
  unfold validateCards.
  induction cards as [|c cs IH]; intros h0 ess hist n Hlen Hloc.
  - destruct ess; [reflexivity | discriminate].
  - destruct ess as [|es ess]; [discriminate |].
    cbn [traverse]. unfold bind at 1.
    rewrite (validateCard_run c (length h0 + 0)) by (apply (Hloc 0%nat); reflexivity).
    unfold withHeap. cbn [heap cardHistory uuidCalls].
    rewrite alter_app_r. cbn [alter list_alter].
    unfold bind at 1.
    rewrite (cons_middle _ h0 ess), app_assoc.
    rewrite IH.
    + unfold ret. cbn [zip_with]. by rewrite <- app_assoc.
    + cbn in Hlen. lia.
    + intros k c' Hk. rewrite (Hloc (S k) c' Hk).
      rewrite length_app. cbn. f_equal. lia.
Qed.

Lemma zip_with_map_imap {A B C D} (g : B -> C -> D) (f : A -> B)
    (l : list A) : forall (h : nat -> A -> C),
  zip_with g (map f l) (imap h l) = imap (fun k x => g (f x) (h k x)) l.
Proof.
  induction l as [|x l IH]; intros h; [reflexivity |].
  cbn. f_equal. apply IH.
Qed.

Lemma imap_to_map {A B} (f : A -> B) (l : list A) :
  imap (fun _ x => f x) l = map f l.
Proof. apply (imap_const f). Qed.

Lemma pipeline_run raws st :
  (let* cleanedCards := traverseFrom preProcess 0 raws in
   validateCards cleanedCards) st =
  (imap (cleaned (length (heap st))) raws,
   withHeap (fun h => h ++ map finalErrors raws) st).
Proof.
  unfold bind. rewrite preProcess_all.
  destruct st as [h hist n]. unfold withHeap. cbn [heap cardHistory uuidCalls].
  rewrite validateCards_run.
  - f_equal. f_equal. f_equal.
    rewrite zip_with_map_imap. rewrite <- imap_to_map.
    apply imap_ext. intros k raw _. reflexivity.
  - by rewrite length_map, length_imap.
  - intros k c Hk. rewrite list_lookup_imap in Hk.
    destruct (raws !! k); [| discriminate]. cbn in Hk. by inversion Hk.
Qed.

Lemma processCard_run raw i :
  processCard raw i =
  mkCardJSON i (fst (normalized raw)) (snd (normalized raw))
    (Some (finalErrors raw)).
Proof.
  unfold processCard. rewrite preProcess_run.
  rewrite (validateCard_run _ 0%nat) by reflexivity.
  unfold snapshot, finalErrors. cbn. reflexivity.
Qed.

Lemma card_run raw i st :
  let card := mkCard i (fst (normalized raw)) (snd (normalized raw))
                (Some (length (heap st))) in
  preProcess raw i st = (card, withHeap (fun h => h ++ [parseErrors raw]) st)
  /\ validateCard card (withHeap (fun h => h ++ [parseErrors raw]) st)
     = (card, withHeap (fun h => h ++ [finalErrors raw]) st).
Proof.
  intros card. split; [apply preProcess_run |].
  rewrite (validateCard_run card (length (heap st))) by reflexivity.
  f_equal. rewrite withHeap_withHeap. apply withHeap_ext.
  rewrite <- (Nat.add_0_r (length (heap st))) at 1.
  rewrite alter_app_r. reflexivity.
Qed.

(** ** What the rules mean *)

Lemma letterInvalid_spec card :
  letterInvalid card = true <-> ~ singleUppercase (alphabet card).
Proof.
  unfold letterInvalid, singleUppercase.
  destruct (alphabet card) as [| | | |s| |];
    try (split; [intros _ (c & Hc & _); discriminate | reflexivity]).
  destruct s as [|c [|d s]].
  - split; [intros _ (c & Hc & _); discriminate | reflexivity].
  - change (js "A") with [65%N]. change (js "Z") with [90%N].
    cbn [str_ltb length Nat.eqb negb orb].
    rewrite !andb_false_r, !orb_false_r.
    rewrite orb_true_iff, !N.ltb_lt. split.
    + intros H (c' & Hc & Hr). inversion Hc; subst c'. lia.
    + intros H.
      destruct (N.lt_ge_cases c 65) as [|H1]; [by left |].
      destruct (N.lt_ge_cases 90 c) as [|H2]; [by right |].
      exfalso. apply H. exists c. split; [reflexivity | lia].
  - split; [intros _ (c' & Hc & _); discriminate | reflexivity].
Qed.

Lemma isInteger_spec q :
  isInteger (Finite q) = true <-> exists z, (q == inject_Z z)%Q.
Proof.
  unfold isInteger. rewrite Z.eqb_eq. destruct q as [n d]. cbn [Qnum Qden].
  split.
  - intros H. exists (n / Zpos d)%Z. unfold Qeq. cbn.
    rewrite Z.mul_1_r. rewrite Z.mul_comm.
    apply Z.div_exact in H; lia.
  - intros [z Hz]. unfold Qeq in Hz. cbn in Hz.
    rewrite Z.mul_1_r in Hz. subst n. apply Z_mod_mult.
Qed.

Lemma numberInvalid_spec card :
  numberInvalid card = true <-> ~ digit0to9 (number card).
Proof.
  unfold numberInvalid, digit0to9, isIntegerValue.
  destruct (number card) as [| | |n| | |];
    try (split; [intros _ (z & (q & Hq & _) & _); discriminate | reflexivity]).
  destruct n as [|s|q].
  - split; [intros _ (z & (q & Hq & _) & _); discriminate | reflexivity].
  - split; [intros _ (z & (q & Hq & _) & _); discriminate |].
    intros _. by destruct s.
  - cbn [num_ltb ofZ]. unfold Qltb.
    rewrite !orb_true_iff, !negb_true_iff.
    rewrite <- !not_true_iff_false, !Qle_bool_iff, isInteger_spec.
    split.
    + intros H (z & (q' & Hq & Hz) & Hr). inversion Hq; subst q'.
      rewrite Hz in H. rewrite <- !Zle_Qle in H.
      destruct H as [[H | H] | H]; [lia | lia |]. apply H. by exists z.
    + intros H.
      destruct (Qlt_le_dec q (inject_Z 0)) as [H0 | H0];
        [left; left; by apply Qlt_not_le |].
      destruct (Qlt_le_dec (inject_Z 9) q) as [H9 | H9];
        [left; right; by apply Qlt_not_le |].
      right. intros [z Hz]. apply H. exists z. split; [by exists q |].
      rewrite Hz in H0, H9. rewrite <- !Zle_Qle in *. lia.
Qed.

Lemma pairingInvalid_spec card :
  pairingInvalid card = true <->
  alphabet card = VStr (js "D") /\ ~ isIntegerValue (number card) 3.
Proof.
  unfold pairingInvalid, isIntegerValue.
  rewrite andb_true_iff, negb_true_iff, <- not_true_iff_false.
  assert (strictEq (alphabet card) (VStr (js "D")) = true
          <-> alphabet card = VStr (js "D")) as Ha.
  { destruct (alphabet card); cbn [strictEq];
      try (split; discriminate).
    rewrite bool_decide_eq_true. split; [by intros -> | by intros [=]]. }
  assert (strictEq (number card) (VNum (ofZ 3)) = true
          <-> exists q, number card = VNum (Finite q) /\ (q == inject_Z 3)%Q)
    as Hn.
  { destruct (number card) as [| | |n| | |]; cbn [strictEq];
      try (split; [discriminate | intros (q & Hq & _); discriminate]).
    destruct n as [|s|q]; cbn [num_eqb ofZ];
      try (split; [discriminate | intros (q & Hq & _); discriminate]).
    rewrite Qeq_bool_iff. split.
    - intros H. by exists q.
    - intros (q' & Hq & H). by inversion Hq; subst q'. }
  rewrite Ha, Hn. reflexivity.
Qed.

Lemma msgs_distinct :
  msgLetter <> msgNumber /\ msgLetter <> msgPairing /\ msgNumber <> msgPairing.
Proof. repeat split; discriminate. Qed.

Lemma ruleErrors_checked card :
  isNull (alphabet card) && isNull (number card) = false ->
  ruleErrors card =
  (if letterInvalid card then [msgLetter] else [])
  ++ (if numberInvalid card then [msgNumber] else [])
  ++ (if pairingInvalid card then [msgPairing] else []).
Proof. intros H. unfold ruleErrors. by rewrite H. Qed.

Lemma ruleErrors_members card :
  isNull (alphabet card) && isNull (number card) = false ->
  (msgLetter ∈ ruleErrors card <-> letterInvalid card = true)
  /\ (msgNumber ∈ ruleErrors card <-> numberInvalid card = true)
  /\ (msgPairing ∈ ruleErrors card <-> pairingInvalid card = true).
Proof.
  intros H. rewrite (ruleErrors_checked _ H).
  destruct msgs_distinct as (H1 & H2 & H3).
  destruct (letterInvalid card), (numberInvalid card), (pairingInvalid card);
    cbn; rewrite ?elem_of_cons, ?elem_of_nil; intuition congruence.
Qed.

(** Two runs of the same computation from the same state agree. *)
Ltac same_run Hknown Hrun :=
  rewrite Hknown in Hrun; apply pair_equal_spec in Hrun;
  destruct Hrun as [<- <-].

Lemma not_both_null card :
  ~ (alphabet card = VNull /\ number card = VNull) ->
  isNull (alphabet card) && isNull (number card) = false.
Proof.
  intros H. destruct (alphabet card), (number card); try reflexivity.
  exfalso. by apply H.
Qed.

(** ** The validator *)

(** C1. For a card with an [errors] array whose letter and digit are not
    both null, the validator returns the card and appends messages to its
    array; "Card must have a single Alphabet A-Z." is among the appended
    messages exactly when the letter is not a one-character string in
    A-Z, and "Number must be between 0-9." exactly when the digit is not
    an integer in [0, 9]. Each test looks at its own field only. *)
Theorem validator_letter_and_digit_rules card a es st :
  errors card = Some a ->
  heap st !! a = Some es ->
  ~ (alphabet card = VNull /\ number card = VNull) ->
  exists added,
    fst (validateCard card st) = card
    /\ heap (snd (validateCard card st)) !! a = Some (es ++ added)
    /\ (msgLetter ∈ added <-> ~ singleUppercase (alphabet card))
    /\ (msgNumber ∈ added <-> ~ digit0to9 (number card)).
Proof.
  intros Ha Hes Hnn. exists (ruleErrors card).
  rewrite (validateCard_run card a st Ha). cbn [fst snd withHeap heap].
  split; [reflexivity |]. split.
  - rewrite list_lookup_alter_eq, Hes. reflexivity.
  - destruct (ruleErrors_members card (not_both_null _ Hnn)) as (Hl & Hn & _).
    rewrite Hl, Hn, letterInvalid_spec, numberInvalid_spec. tauto.
Qed.

Lemma validator_letter_and_digit_rules_witness :
  exists added,
    fst (validateCard (mkCard 0 (VStr (js "dd")) (num 28) (Some 0%nat))
           (mkState [[]] [] 0))
    = mkCard 0 (VStr (js "dd")) (num 28) (Some 0%nat)
    /\ heap (snd (validateCard (mkCard 0 (VStr (js "dd")) (num 28) (Some 0%nat))
                    (mkState [[]] [] 0))) !! 0%nat
       = Some ([] ++ added)
    /\ (msgLetter ∈ added <-> ~ singleUppercase (VStr (js "dd")))
    /\ (msgNumber ∈ added <-> ~ digit0to9 (num 28)).
Proof.
  apply (validator_letter_and_digit_rules
           (mkCard 0 (VStr (js "dd")) (num 28) (Some 0%nat)) 0%nat []
           (mkState [[]] [] 0)).
  - reflexivity.
  - reflexivity.
  - intros [H _]. discriminate H.
Defined.

(** Both rules fire on one card, in the order of the checks. *)
Example both_rules_fire :
  json_errors (processCard (VArr [VStr (js "dd"); num 28]) 0)
  = Some [msgLetter; msgNumber].
Proof. reflexivity. Qed.

(** Lowercase is rejected, fractions and out-of-range numbers too. *)
Example letter_digit_examples :
  map (fun raw => json_errors (processCard raw 0))
    [ obj2 "Alphabet" (VStr (js "c")) "Number" (num 5);
      VArr [VStr (js "X"); num 28];
      VArr [VStr (js "X"); VNum (Finite (5 # 2))];
      VArr [VStr (js "X"); num (-1)];
      VArr [VStr (js "X"); VNum (Infinity false)];
      VArr [VStr (js "X"); num 9];
      VArr [VStr (js "X"); VNum (Finite (6 # 2))] ]
  = [ Some [msgLetter]; Some [msgNumber]; Some [msgNumber]; Some [msgNumber];
      Some [msgNumber]; Some []; Some [] ].
Proof. reflexivity. Qed.

(** C2. Whatever the shape of the raw card, when the normaliser finds the
    letter "D" the errors of the validated card contain
    'Card "D" must have the number 3.' exactly when the digit is not the
    number 3: it is appended for every other digit and never for 3. *)
Theorem pairing_rule raw i st card st1 card' st2 :
  preProcess raw i st = (card, st1) ->
  validateCard card st1 = (card', st2) ->
  alphabet card = VStr (js "D") ->
  exists es,
    readErrors (heap st2) (errors card') = Some es
    /\ (msgPairing ∈ es <-> ~ isIntegerValue (number card) 3).
Proof.
  intros Hp Hv HD.
  destruct (card_run raw i st) as [Hp' Hv'].
  same_run Hp' Hp. same_run Hv' Hv.
  cbn [alphabet number errors] in *.
  exists (finalErrors raw). split.
  - cbn. rewrite lookup_app_r by lia. by rewrite Nat.sub_diag.
  - unfold finalErrors.
    destruct (normalized_cases raw) as [(_ & _ & ->) | (Hn & _)];
      [| rewrite Hn in HD; discriminate].
    cbn [app].
    assert (isNull (alphabet (cleaned 0 0 raw))
            && isNull (number (cleaned 0 0 raw)) = false) as Hc.
    { cbn [cleaned alphabet number]. by rewrite HD. }
    destruct (ruleErrors_members _ Hc) as (_ & _ & Hpair).
    rewrite Hpair, pairingInvalid_spec. cbn [cleaned alphabet number].
    tauto.
Qed.

Lemma pairing_rule_witness :
  exists es,
    readErrors (heap (mkState [[msgPairing]] [] 0)) (Some 0%nat) = Some es
    /\ (msgPairing ∈ es <-> ~ isIntegerValue (num 4) 3).
Proof.
  apply (pairing_rule (VStr (js "D,4")) 0 initialState
           (mkCard 0 (VStr (js "D")) (num 4) (Some 0%nat))
           (mkState [[]] [] 0)
           (mkCard 0 (VStr (js "D")) (num 4) (Some 0%nat))
           (mkState [[msgPairing]] [] 0)); reflexivity.
Defined.

(** The three shapes, both orders, with a wrong digit and with 3 *)
Example pairing_examples :
  map (fun raw => json_errors (processCard raw 0))
    [ VStr (js "D,4"); VStr (js "4,D");
      VArr [VStr (js "D"); num 4]; VArr [num 4; VStr (js "D")];
      obj2 "sideA" (VStr (js "D")) "sideB" (num 4);
      obj2 "sideB" (num 4) "sideA" (VStr (js "D"));
      VStr (js "D,3"); VArr [num 3; VStr (js "D")];
      obj2 "sideA" (VStr (js "D")) "sideB" (num 3) ]
  = [ Some [msgPairing]; Some [msgPairing]; Some [msgPairing];
      Some [msgPairing]; Some [msgPairing]; Some [msgPairing];
      Some []; Some []; Some [] ].
Proof. reflexivity. Qed.

(** C5. A card for which the normaliser found no letter and no digit comes
    back from the validator as it is, with the store untouched: its
    [errors] array holds the one parse message and nothing is appended. *)
Theorem unparsed_card_skipped raw i st card st1 :
  preProcess raw i st = (card, st1) ->
  alphabet card = VNull ->
  number card = VNull ->
  validateCard card st1 = (card, st1)
  /\ exists msg,
       msg ∈ parseMessages
       /\ readErrors (heap st1) (errors card) = Some [msg].
Proof.
  intros Hp Ha Hn. split.
  - unfold validateCard. by rewrite Ha, Hn.
  - pose proof (preProcess_run raw i st) as Hp'. same_run Hp' Hp.
    cbn [alphabet number errors] in *.
    destruct (normalized_cases raw) as [(Ht & _) | (_ & msg & Hin & Hpe)].
    + rewrite Ha in Ht. discriminate.
    + exists msg. split; [assumption |]. cbn.
      rewrite lookup_app_r by lia. by rewrite Nat.sub_diag, Hpe.
Qed.

Lemma unparsed_card_skipped_witness :
  validateCard (mkCard 17 VNull VNull (Some 0%nat)) (mkState [[msgString]] [] 0)
  = (mkCard 17 VNull VNull (Some 0%nat), mkState [[msgString]] [] 0)
  /\ exists msg,
       msg ∈ parseMessages
       /\ readErrors (heap (mkState [[msgString]] [] 0)) (Some 0%nat)
          = Some [msg].
Proof.
  apply (unparsed_card_skipped (VStr (js "Test")) 17 initialState
           (mkCard 17 VNull VNull (Some 0%nat)) (mkState [[msgString]] [] 0));
    reflexivity.
Defined.

(** ** The handler of POST /cards *)

Lemma pipeline_bind {A} raws (k : list Card -> M A) st :
  (let* cleanedCards := traverseFrom preProcess 0 raws in
   let* validatedCards := validateCards cleanedCards in
   k validatedCards) st =
  k (imap (cleaned (length (heap st))) raws)
    (withHeap (fun h => h ++ map finalErrors raws) st).
Proof.
  pose proof (pipeline_run raws st) as H. unfold bind in *.
  destruct (traverseFrom preProcess 0 raws st) as [cs st1].
  by rewrite H.
Qed.

Lemma filter_map {A B} (p : B -> bool) (f : A -> B) (l : list A) :
  List.filter p (map f l) = map f (List.filter (fun x => p (f x)) l).
Proof.
  induction l as [|x l IH]; [reflexivity |]. cbn.
  destruct (p (f x)); cbn; by rewrite IH.
Qed.

Lemma snapshot_cleaned raws h0 :
  map (snapshot (h0 ++ map finalErrors raws)) (imap (cleaned (length h0)) raws)
  = processed raws.
Proof.
  unfold processed. apply list_eq. intros k.
  rewrite list_lookup_fmap, !list_lookup_imap.
  destruct (raws !! k) as [raw|] eqn:Hk; [| reflexivity].
  cbn [fmap option_fmap option_map]. f_equal.
  rewrite processCard_run. unfold snapshot, cleaned.
  cbn [id alphabet number errors readErrors]. f_equal.
  rewrite lookup_app_r by lia.
  replace (length h0 + k - length h0) with k by lia.
  by rewrite list_lookup_fmap, Hk.
Qed.

Section ServiceProperties.

Variable uuidv1 : nat -> JSString.

(** A batch of 20: the reply and the state the request leaves. *)
Lemma postCards_run req raws st :
  submits req (VArr raws) ->
  length raws = 20 ->
  postCards uuidv1 req st =
  (let invalid := List.filter hasErrorsJSON (processed raws) in
   if (0 <? length invalid)%nat then failure invalid else acceptance,
   mkState (heap st ++ map finalErrors raws)
     (cardHistory st ++
        map (entryOf (uuidv1 (uuidCalls st)))
          (imap (cleaned (length (heap st))) raws))
     (S (uuidCalls st))).
Proof.
  intros Hreq Hlen.
  assert (postCards uuidv1 req st
          = postCards uuidv1 (JsonRequest (VArr raws)) st) as ->.
  { by destruct Hreq as [-> | ->]. }
  unfold postCards. rewrite Hlen. cbn [Nat.eqb negb].
  rewrite pipeline_bind.
  unfold bind, filterInvalid, saveHistory, withHeap.
  cbn [heap cardHistory uuidCalls].
  set (h' := heap st ++ map finalErrors raws).
  set (cards := imap (cleaned (length (heap st))) raws).
  assert (map (snapshot h') (List.filter (hasErrors h') cards)
          = List.filter hasErrorsJSON (processed raws)) as Hinv.
  { rewrite <- (snapshot_cleaned raws (heap st)). fold h' cards.
    by rewrite filter_map. }
  cbn zeta. rewrite <- Hinv. unfold failure, acceptance, json, ret.
  rewrite length_map.
  destruct (0 <? length (List.filter (hasErrors h') cards))%nat;
    reflexivity.
Qed.

(** C4. An array of cards whose length is not 20, in either encoding,
    is answered with status 400 and the single message "The deck must
    have 20 cards."; the reply has no discardCount and no invalidCards,
    and the state is the one before the request: no array was
    allocated, so neither the normaliser nor the validator ran, and
    nothing was added to the history. *)
Theorem wrong_size_rejected req raws st :
  submits req (VArr raws) ->
  length raws <> 20 ->
  postCards uuidv1 req st = (rejection, st)
  /\ discardCount rejection = None
  /\ invalidCards rejection = None
  /\ error rejection = None.
Proof.
  intros Hreq Hlen. split; [| done].
  assert (postCards uuidv1 req st
          = postCards uuidv1 (JsonRequest (VArr raws)) st) as ->.
  { by destruct Hreq as [-> | ->]. }
  unfold postCards.
  destruct (length raws =? 20)%nat eqn:E; [| reflexivity].
  apply Nat.eqb_eq in E. contradiction.
Qed.

(** C7. For a batch of 20, when some card has a nonempty error list the
    reply carries discardCount, the number of such cards, and
    invalidCards, exactly those cards in batch order; when every card
    has an empty error list the reply is the acceptance, which has
    neither field. *)
Theorem response_lists_invalid_cards req raws st :
  submits req (VArr raws) ->
  length raws = 20 ->
  let invalid := List.filter hasErrorsJSON (processed raws) in
  let reply := fst (postCards uuidv1 req st) in
  ((exists c, c ∈ processed raws /\ hasErrorsJSON c = true) ->
   reply = failure invalid
   /\ discardCount reply = Some (length invalid)
   /\ invalidCards reply = Some invalid)
  /\ ((forall c, c ∈ processed raws -> json_errors c = Some []) ->
      reply = acceptance
      /\ discardCount reply = None
      /\ invalidCards reply = None).
Proof.
  intros Hreq Hlen invalid reply. subst reply.
  rewrite (postCards_run req raws st Hreq Hlen). cbn [fst]. fold invalid.
  split.
  - intros (c & Hc & Hbad).
    assert (c ∈ invalid) as Hin.
    { apply list_elem_of_In, filter_In. split; [| assumption].
      by apply list_elem_of_In. }
    destruct invalid as [|c0 invalid']; [by apply elem_of_nil in Hin |].
    cbn [length Nat.ltb Nat.leb]. done.
  - intros Hall.
    assert (invalid = []) as ->; [| done].
    subst invalid. induction (processed raws) as [|c l IH]; [reflexivity |].
    cbn. unfold hasErrorsJSON at 1.
    rewrite (Hall c) by constructor. cbn. apply IH.
    intros c' Hc'. apply Hall. by constructor.
Qed.

End ServiceProperties.

Lemma wrong_size_rejected_witness :
  postCards testIds (JsonRequest (VArr [VStr (js "A,1")])) initialState
  = (rejection, initialState)
  /\ discardCount rejection = None
  /\ invalidCards rejection = None
  /\ error rejection = None.
Proof.
  apply (wrong_size_rejected testIds (JsonRequest (VArr [VStr (js "A,1")]))
           [VStr (js "A,1")] initialState).
  - by left.
  - cbn. lia.
Defined.

Lemma response_lists_invalid_cards_witness :
  let reply :=
    fst (postCards testIds (JsonRequest (VArr sampleDeck)) initialState) in
  discardCount reply = Some 3
  /\ option_map (map json_id) (invalidCards reply) = Some [3; 5; 17].
Proof.
  destruct (response_lists_invalid_cards testIds
              (JsonRequest (VArr sampleDeck)) sampleDeck initialState
              (or_introl eq_refl) eq_refl) as [Hbad _].
  destruct Hbad as (_ & Hcount & Hcards).
  - exists (processCard (VStr (js "D,4")) 5). split; [| reflexivity].
    apply list_elem_of_lookup. exists 5. reflexivity.
  - cbn zeta. rewrite Hcount, Hcards. split; reflexivity.
Defined.

(** The two outcomes on the decks of the front end *)
Example sample_deck_reply :
  fst (postCards testIds (JsonRequest (VArr sampleDeck)) initialState)
  = failure
      [ mkCardJSON 3 (VStr (js "C")) (num 28) (Some [msgNumber]);
        mkCardJSON 5 (VStr (js "D")) (num 4) (Some [msgPairing]);
        mkCardJSON 17 VNull VNull (Some [msgString]) ].
Proof. reflexivity. Qed.

Example valid_deck_reply :
  fst (postCards testIds (TextRequest (Some (VArr validDeck))) initialState)
  = acceptance.
Proof. reflexivity. Qed.

(** ** The history log *)

Section HistoryProperties.

Variable uuidv1 : nat -> JSString.

(** A request either leaves the state alone or is a batch of 20. *)
Lemma postCards_state req st :
  snd (postCards uuidv1 req st) = st
  \/ exists raws, submits req (VArr raws) /\ length raws = 20.
Proof.
  assert (forall cards, snd (postCards uuidv1 (JsonRequest cards) st) = st
            \/ exists raws, cards = VArr raws /\ length raws = 20) as H.
  { intros cards. destruct cards as [| | | | |raws|]; try (by left).
    destruct (decide (length raws = 20)) as [Hlen | Hlen].
    - right. by exists raws.
    - left. unfold postCards.
      destruct (length raws =? 20)%nat eqn:E; [| reflexivity].
      apply Nat.eqb_eq in E. contradiction. }
  destruct req as [cards | [cards|] |]; try (by left).
  - destruct (H cards) as [? | (raws & -> & ?)]; [by left |].
    right. exists raws. split; [by left | done].
  - destruct (H cards) as [? | (raws & -> & ?)]; [by left |].
    right. exists raws. split; [by right | done].
Qed.

Lemma historyOk_step req st :
  historyOk uuidv1 st -> historyOk uuidv1 (snd (postCards uuidv1 req st)).
Proof.
  intros Hok.
  destruct (postCards_state req st) as [-> | (raws & Hreq & Hlen)];
    [assumption |].
  rewrite (postCards_run uuidv1 req raws st Hreq Hlen). cbn [snd].
  intros e He. cbn [cardHistory heap uuidCalls] in *.
  apply elem_of_app in He as [He | He].
  - destruct (Hok e He) as [(a & Ha & Hlt) (k & Hk & Hid)]. split.
    + exists a. split; [assumption |]. rewrite length_app. lia.
    + exists k. split; [lia | assumption].
  - apply list_elem_of_fmap in He as (c & -> & Hc).
    apply list_elem_of_lookup in Hc as [k Hc].
    rewrite list_lookup_imap in Hc.
    destruct (raws !! k) as [raw|] eqn:Hk; [| discriminate].
    cbn in Hc. inversion Hc; subst c; clear Hc.
    apply lookup_lt_Some in Hk. split.
    + exists (length (heap st) + k). split; [reflexivity |].
      rewrite length_app, length_map. lia.
    + exists (uuidCalls st). split; [lia | reflexivity].
Qed.

Lemma reachable_historyOk st : reachable uuidv1 st -> historyOk uuidv1 st.
Proof.
  induction 1 as [| req st1 _ IH].
  - intros e He. by apply elem_of_nil in He.
  - by apply historyOk_step.
Qed.

(** A request never changes what the entries already recorded show. *)
Lemma getHistory_step req st :
  historyOk uuidv1 st ->
  exists new,
    getHistory (snd (postCards uuidv1 req st)) = getHistory st ++ new.
Proof.
  intros Hok.
  destruct (postCards_state req st) as [-> | (raws & Hreq & Hlen)].
  { exists []. by rewrite app_nil_r. }
  rewrite (postCards_run uuidv1 req raws st Hreq Hlen). cbn [snd].
  unfold getHistory. cbn [heap cardHistory]. rewrite map_app.
  eexists. f_equal.
  apply map_ext_in. intros e He. apply list_elem_of_In in He.
  destruct (Hok e He) as [(a & Ha & Hlt) _].
  unfold entrySnapshot. f_equal. rewrite Ha. cbn.
  by rewrite lookup_app_l.
Qed.

Lemma later_historyOk st st1 : historyOk uuidv1 st -> later uuidv1 st st1 -> historyOk uuidv1 st1.
Proof.
  intros Hok. induction 1 as [| req st1 _ IH]; [assumption |].
  by apply historyOk_step.
Qed.

Lemma getHistory_later st st1 :
  historyOk uuidv1 st -> later uuidv1 st st1 ->
  exists more, getHistory st1 = getHistory st ++ more.
Proof.
  intros Hok. induction 1 as [| req st1 Hl IH].
  - exists []. by rewrite app_nil_r.
  - destruct IH as [more IH].
    destruct (getHistory_step req st1 (later_historyOk _ _ Hok Hl))
      as [new Hnew].
    exists (more ++ new). by rewrite Hnew, IH, app_assoc.
Qed.

Lemma getHistory_batch req raws st :
  historyOk uuidv1 st ->
  submits req (VArr raws) ->
  length raws = 20 ->
  getHistory (snd (postCards uuidv1 req st))
  = getHistory st ++ batchEntries (uuidv1 (uuidCalls st)) raws.
Proof.
  intros Hok Hreq Hlen.
  destruct (getHistory_step req st Hok) as [new Hnew].
  rewrite Hnew. f_equal.
  rewrite (postCards_run uuidv1 req raws st Hreq Hlen) in Hnew.
  cbn [snd] in Hnew. unfold getHistory in Hnew.
  cbn [heap cardHistory] in Hnew. rewrite map_app in Hnew.
  assert (length (map (entrySnapshot (heap st ++ map finalErrors raws))
                    (cardHistory st))
          = length (map (entrySnapshot (heap st)) (cardHistory st))) as Hl.
  { by rewrite !length_map. }
  apply app_inj_1 in Hnew as [_ <-]; [| assumption].
  unfold batchEntries. apply list_eq. intros k.
  rewrite !list_lookup_fmap, !list_lookup_imap.
  destruct (raws !! k) as [raw|] eqn:Hk; [| reflexivity].
  cbn [fmap option_fmap option_map]. f_equal.
  rewrite processCard_run. unfold entrySnapshot, entryOf, cleaned.
  cbn. f_equal.
  rewrite lookup_app_r by lia.
  replace (length (heap st) + k - length (heap st)) with k by lia.
  by rewrite list_lookup_fmap, Hk.
Qed.

(** C9. A batch of 20 submitted in a reachable state, valid or not,
    adds exactly 20 entries to the history, after the ones already
    there; entry [k] carries the index, letter, digit and errors of
    card [k]; all 20 carry the identifier the generator issues for this
    batch, which no earlier entry carries when the generator never
    repeats itself; and whatever requests follow, the entries recorded
    so far still read the same. *)
Theorem history_records_batch req raws st :
  (forall m n, uuidv1 m = uuidv1 n -> m = n) ->
  reachable uuidv1 st ->
  submits req (VArr raws) ->
  length raws = 20 ->
  let st' := snd (postCards uuidv1 req st) in
  exists deck new,
    getHistory st' = getHistory st ++ new
    /\ length new = 20
    /\ (forall k raw, raws !! k = Some raw ->
          new !! k =
          Some (mkEntryJSON deck k (json_alphabet (processCard raw k))
                  (json_number (processCard raw k))
                  (json_errors (processCard raw k))))
    /\ (forall e, e ∈ getHistory st -> json_deckId e <> deck)
    /\ (forall st'', later uuidv1 st' st'' ->
          exists more, getHistory st'' = getHistory st ++ new ++ more).
Proof.
  intros Hinj Hreach Hreq Hlen st'.
  pose proof (reachable_historyOk st Hreach) as Hok.
  exists (uuidv1 (uuidCalls st)), (batchEntries (uuidv1 (uuidCalls st)) raws).
  assert (getHistory st'
          = getHistory st ++ batchEntries (uuidv1 (uuidCalls st)) raws)
    as Hst' by (by apply getHistory_batch).
  split; [assumption |]. split; [| split; [| split]].
  - unfold batchEntries. by rewrite length_imap.
  - intros k raw Hk. unfold batchEntries.
    by rewrite list_lookup_imap, Hk.
  - intros e He Heq. unfold getHistory in He.
    apply list_elem_of_fmap in He as (e0 & -> & He0).
    destruct (Hok e0 He0) as [_ (k & Hk & Hid)].
    cbn in Heq. rewrite Hid in Heq. apply Hinj in Heq. lia.
  - intros st'' Hl.
    destruct (getHistory_later st' st'') as [more Hmore];
      [by apply historyOk_step | assumption |].
    exists more. by rewrite Hmore, Hst', app_assoc.
Qed.

End HistoryProperties.

Lemma testIds_inj m n : testIds m = testIds n -> m = n.
Proof.
  unfold testIds. intros H. apply app_inv_head in H.
  injection H as H. by apply Nat2N.inj.
Qed.

Lemma history_records_batch_witness :
  let st := snd (postCards testIds (JsonRequest (VArr validDeck)) initialState) in
  let st' := snd (postCards testIds (JsonRequest (VArr sampleDeck)) st) in
  exists deck new,
    getHistory st' = getHistory st ++ new
    /\ length new = 20
    /\ (forall k raw, sampleDeck !! k = Some raw ->
          new !! k =
          Some (mkEntryJSON deck k (json_alphabet (processCard raw k))
                  (json_number (processCard raw k))
                  (json_errors (processCard raw k))))
    /\ (forall e, e ∈ getHistory st -> json_deckId e <> deck)
    /\ (forall st'', later testIds st' st'' ->
          exists more, getHistory st'' = getHistory st ++ new ++ more).
Proof.
  apply (history_records_batch testIds (JsonRequest (VArr sampleDeck))
           sampleDeck
           (snd (postCards testIds (JsonRequest (VArr validDeck))
                   initialState))).
  - exact testIds_inj.
  - apply later_step, later_refl.
  - by left.
  - reflexivity.
Defined.

(** Two batches in a row: 40 entries, two identifiers, and the errors of
    the first batch read as before. *)
Example two_batches_history :
  let st1 := snd (postCards testIds (JsonRequest (VArr sampleDeck)) initialState) in
  let st2 := snd (postCards testIds (JsonRequest (VArr validDeck)) st1) in
  length (getHistory st1) = 20
  /\ length (getHistory st2) = 40
  /\ firstn 20 (getHistory st2) = getHistory st1
  /\ map json_deckId (getHistory st2)
     = repeat (testIds 0) 20 ++ repeat (testIds 1) 20
  /\ map json_entry_errors (firstn 6 (getHistory st2))
     = [Some []; Some []; Some []; Some [msgNumber]; Some [];
        Some [msgPairing]].
Proof. vm_compute. repeat split. Qed.

(** ** Delimited strings *)

Lemma isNaN_nonempty s : isNaN s = true -> s <> [].
Proof. by intros H ->. Qed.

(** The loop over the parts keeps the first part that is not numeric and
    the integer of the first part that is. *)
Lemma scan_parts parts : forall oa on,
  (forall s, oa = Some s -> isNaN s = true) ->
  fold_left scanPart parts (letterOf oa, digitOf on) =
  (letterOf (orElse oa (List.find isNaN parts)),
   digitOf (orElse on (List.find numericPart parts))).
Proof.
  induction parts as [|p parts IH]; intros oa on Hoa.
  - cbn. by destruct oa, on.
  - cbn [fold_left List.find]. unfold numericPart at 1, scanPart at 2.
    destruct (isNaN p) eqn:Hp; cbn [negb].
    + destruct oa as [s|]; cbn [letterOf truthy negb andb orElse].
      * pose proof (isNaN_nonempty s (Hoa s eq_refl)) as Hs.
        rewrite bool_decide_eq_false_2 by assumption.
        cbn [negb andb]. rewrite andb_false_r.
        apply (IH (Some s) on Hoa).
      * apply (IH (Some p) on). by intros s [= <-].
    + rewrite andb_false_r, andb_true_r.
      destruct on as [t|]; cbn [digitOf isNull orElse].
      * apply (IH oa (Some t) Hoa).
      * apply (IH oa (Some p) Hoa).
Qed.

Lemma find_some_pred {A} (p : A -> bool) l x :
  List.find p l = Some x -> p x = true.
Proof. intros H. by apply find_some in H as [_ H]. Qed.

(** What the string branch of the normaliser returns *)
Lemma normalized_string s :
  normalized (VStr s) =
  match List.find isNaN (stringParts s),
        List.find numericPart (stringParts s) with
  | Some l, Some d => (VStr l, VNum (parseInt d))
  | _, _ => (VNull, VNull)
  end
  /\ parseErrors (VStr s) =
     match List.find isNaN (stringParts s),
           List.find numericPart (stringParts s) with
     | Some l, Some d => []
     | _, _ => [msgString]
     end.
Proof.
  unfold normalized, parseErrors, preProcess. fold (stringParts s).
  pose proof (scan_parts (stringParts s) None None) as H.
  cbn [letterOf digitOf orElse] in H. rewrite H by discriminate.
  destruct (List.find isNaN (stringParts s)) as [l|] eqn:Hl;
    destruct (List.find numericPart (stringParts s)) as [d|] eqn:Hd;
    try (split; reflexivity).
  all: apply find_some_pred, isNaN_nonempty in Hl.
  all: unfold finish; cbn [letterOf digitOf truthy isNull].
  all: rewrite bool_decide_eq_false_2 by assumption; split; reflexivity.
Qed.

(** C6. For every delimited string, with [parts] its comma-separated
    parts, trimmed: when some part is not numeric and some part is, the
    normaliser returns the first part that is not numeric as the letter
    and [parseInt(_, 10)] of the first numeric part as the digit, with no
    parse error; otherwise it returns the parse error of strings. The
    outcome is the same for any other string whose non-numeric parts,
    in order, and numeric parts, in order, are the same: how the two
    kinds are interleaved, so whether the letter or the digit comes
    first, does not matter. *)
Theorem string_parts_scanned s i st :
  preProcess (VStr s) i st =
  match List.find isNaN (stringParts s),
        List.find numericPart (stringParts s) with
  | Some l, Some d =>
      (mkCard i (VStr l) (VNum (parseInt d)) (Some (length (heap st))),
       withHeap (fun h => h ++ [[]]) st)
  | _, _ =>
      (mkCard i VNull VNull (Some (length (heap st))),
       withHeap (fun h => h ++ [[msgString]]) st)
  end
  /\ forall s',
       List.filter isNaN (stringParts s') = List.filter isNaN (stringParts s) ->
       List.filter numericPart (stringParts s')
       = List.filter numericPart (stringParts s) ->
       preProcess (VStr s') i st = preProcess (VStr s) i st.
Proof.
  assert (forall s0,
    preProcess (VStr s0) i st =
    match List.find isNaN (stringParts s0),
          List.find numericPart (stringParts s0) with
    | Some l, Some d =>
        (mkCard i (VStr l) (VNum (parseInt d)) (Some (length (heap st))),
         withHeap (fun h => h ++ [[]]) st)
    | _, _ =>
        (mkCard i VNull VNull (Some (length (heap st))),
         withHeap (fun h => h ++ [[msgString]]) st)
    end) as Hrun.
  { intros s0. rewrite preProcess_run.
    destruct (normalized_string s0) as [-> ->].
    destruct (List.find isNaN (stringParts s0)),
             (List.find numericPart (stringParts s0)); reflexivity. }
  split; [apply Hrun |].
  intros s' Hl Hd. rewrite !Hrun.
  assert (forall (p : JSString -> bool) l,
            List.find p l = hd_error (List.filter p l)) as Hfind.
  { intros p l. induction l as [|x l IH]; [reflexivity |].
    cbn. by destruct (p x). }
  by rewrite !Hfind, Hl, Hd.
Qed.

Lemma string_parts_scanned_witness :
  preProcess (VStr (js "3,D")) 0 initialState
  = preProcess (VStr (js "D,3")) 0 initialState.
Proof.
  apply (string_parts_scanned (js "D,3") 0 initialState); reflexivity.
Defined.

Example string_scan_examples :
  map (fun s => normalized (VStr (js s)))
    ["D,3"; "3,D"; " 7 , Q "; "A,B,1"; "B,A,1"; "1,2,A"; "A"; "5"; "A,";
      ",A"; "A,0x1F"; "A,1e3"; "x,y"; ""]%string
  = [ (VStr (js "D"), num 3); (VStr (js "D"), num 3);
      (VStr (js "Q"), num 7); (VStr (js "A"), num 1);
      (VStr (js "B"), num 1); (VStr (js "A"), num 1);
      (VNull, VNull); (VNull, VNull); (VStr (js "A"), VNum NaN);
      (VStr (js "A"), VNum NaN); (VStr (js "A"), num 0);
      (VStr (js "A"), num 1); (VNull, VNull); (VNull, VNull) ].
Proof. reflexivity. Qed.

(** ** Decimal text *)

Example decimal_ex :
  map decimal [0; 3; 28; -7; 1205]%Z
  = map js ["0"; "3"; "28"; "-7"; "1205"]%string.
Proof. vm_compute. reflexivity. Qed.

Lemma split_app_comma l t :
  comma ∉ l -> split (l ++ comma :: t) = l :: split t.
Proof.
  induction l as [|c l IH]; intros Hl; [reflexivity |].
  apply not_elem_of_cons in Hl as [Hc Hl].
  cbn [app split]. destruct (N.eqb_spec c comma) as [-> | _]; [done |].
  by rewrite (IH Hl).
Qed.

Lemma split_no_comma t : comma ∉ t -> split t = [t].
Proof.
  induction t as [|c t IH]; intros Ht; [reflexivity |].
  apply not_elem_of_cons in Ht as [Hc Ht].
  cbn [split]. destruct (N.eqb_spec c comma) as [-> | _]; [done |].
  by rewrite (IH Ht).
Qed.

Lemma isDigit_range c : isDigit c = true <-> (48 <= c <= 57)%N.
Proof. unfold isDigit. rewrite andb_true_iff, !N.leb_le. tauto. Qed.

(** Decide a boolean test on a code unit known to lie in a range. *)
Ltac units :=
  repeat match goal with
         | |- context [N.eqb ?a ?b] => destruct (N.eqb_spec a b); [lia |]
         | |- context [N.leb ?a ?b] => destruct (N.leb_spec a b)
         end;
  try reflexivity; try lia.

Lemma numeralUnit_not_space c : numeralUnit c = true -> isWhiteSpace c = false.
Proof.
  unfold numeralUnit, isDigit. rewrite !orb_true_iff, andb_true_iff.
  rewrite !N.leb_le, !N.eqb_eq. intros H. unfold isWhiteSpace.
  assert (45 <= c <= 57)%N by lia. units.
Qed.

Lemma numeralUnit_not_comma s : forallb numeralUnit s = true -> comma ∉ s.
Proof.
  induction s as [|c s IH]; [intros _; apply not_elem_of_nil |].
  cbn [forallb]. rewrite andb_true_iff. intros [Hc Hs].
  apply not_elem_of_cons. split; [| by apply IH].
  unfold numeralUnit, isDigit in Hc.
  rewrite !orb_true_iff, andb_true_iff, !N.leb_le, !N.eqb_eq in Hc.
  unfold comma. lia.
Qed.

Lemma trimStart_no_space s :
  forallb (fun c => negb (isWhiteSpace c)) s = true -> trimStart s = s.
Proof.
  destruct s as [|c s]; [reflexivity |]. cbn [forallb trimStart].
  rewrite andb_true_iff, negb_true_iff. by intros [-> _].
Qed.

Lemma trim_no_space s :
  forallb (fun c => negb (isWhiteSpace c)) s = true -> trim s = s.
Proof.
  intros H. unfold trim, trimEnd. rewrite (trimStart_no_space s H).
  rewrite trimStart_no_space; [apply rev_involutive |].
  rewrite forallb_forall in *. intros c Hc. apply H. by apply in_rev.
Qed.

Lemma numeral_no_space s :
  forallb numeralUnit s = true ->
  forallb (fun c => negb (isWhiteSpace c)) s = true.
Proof.
  rewrite !forallb_forall. intros H c Hc.
  by rewrite (numeralUnit_not_space c (H c Hc)).
Qed.

Lemma allDigits_numeral s : allDigits s = true -> forallb numeralUnit s = true.
Proof.
  unfold allDigits. rewrite !forallb_forall. intros H c Hc.
  unfold numeralUnit. by rewrite (H c Hc).
Qed.

Lemma uintUnits_digits u : allDigits (uintUnits u) = true.
Proof. induction u; cbn; auto. Qed.

Lemma digitsValue_uint u : forall acc,
  digitsValue (Z.of_nat acc) (uintUnits u) = Z.of_nat (Nat.of_uint_acc u acc).
Proof.
  induction u; intros acc; [reflexivity | ..];
    cbn [uintUnits digitsValue Nat.of_uint_acc]; rewrite <- IHu; f_equal;
    rewrite Nat.tail_mul_spec; simpl (Z.of_N _); lia.
Qed.

Lemma digitsText_value n : digitsValue 0 (digitsText n) = Z.of_nat n.
Proof.
  unfold digitsText. rewrite (digitsValue_uint _ 0).
  f_equal. apply Unsigned.of_to.
Qed.

Lemma digitsText_digits n : allDigits (digitsText n) = true.
Proof. apply uintUnits_digits. Qed.

Lemma digitsText_nonempty n : digitsText n <> [].
Proof.
  intros H. pose proof (digitsText_value n) as Hv. rewrite H in Hv.
  cbn in Hv. assert (n = 0) as -> by lia. discriminate H.
Qed.

Lemma takeDigits_app ds rest :
  allDigits ds = true ->
  match rest with c :: _ => isDigit c = false | [] => True end ->
  takeDigits (ds ++ rest) = ds /\ skipDigits (ds ++ rest) = rest.
Proof.
  intros Hds Hrest. induction ds as [|d ds IH].
  - destruct rest as [|c rest]; [done |]. cbn. by rewrite Hrest.
  - cbn in Hds. apply andb_true_iff in Hds as [Hd Hds].
    cbn [app takeDigits skipDigits]. rewrite Hd.
    destruct (IH Hds) as [-> ->]. done.
Qed.

Lemma numeral_units neg ds tail :
  allDigits ds = true -> fractionTail tail ->
  forallb numeralUnit (numeral neg ds tail) = true.
Proof.
  intros Hds Htail. unfold numeral. rewrite !forallb_app.
  rewrite (allDigits_numeral ds Hds).
  assert (forallb numeralUnit tail = true) as ->.
  { destruct Htail as [-> | (fs & -> & Hfs)]; [reflexivity |].
    cbn [forallb]. by rewrite (allDigits_numeral fs Hfs). }
  by destruct neg.
Qed.

Lemma fractionTail_head tail :
  fractionTail tail ->
  match tail with c :: _ => isDigit c = false | [] => True end.
Proof. by intros [-> | (fs & -> & _)]. Qed.

Lemma unsignedDecimal_numeral d ds tail :
  isDigit d = true -> allDigits ds = true -> fractionTail tail ->
  unsignedDecimal (d :: ds ++ tail) = true.
Proof.
  intros Hd Hds Htail. unfold unsignedDecimal.
  apply orb_true_iff. right.
  assert ((d =? 46)%N = false) as ->.
  { apply isDigit_range in Hd. apply N.eqb_neq. lia. }
  rewrite Hd. cbn [andb].
  destruct (takeDigits_app ds tail Hds (fractionTail_head _ Htail)) as [_ ->].
  destruct Htail as [-> | (fs & -> & Hfs)]; [reflexivity |].
  cbn [N.eqb Pos.eqb].
  destruct (takeDigits_app fs [] Hfs I) as [_ Hskip].
  rewrite app_nil_r in Hskip. by rewrite Hskip.
Qed.

Lemma numeral_facts neg d ds tail :
  isDigit d = true -> allDigits ds = true -> fractionTail tail ->
  let t := numeral neg (d :: ds) tail in
  trim t = t /\ (comma ∉ t) /\ isNaN t = false
  /\ parseInt t
     = number64 ((if neg then -1 else 1) * digitsValue 0 (d :: ds)).
Proof.
  intros Hd Hds Htail t.
  assert (allDigits (d :: ds) = true) as Hall.
  { cbn. by rewrite Hd. }
  pose proof (numeral_units neg (d :: ds) tail Hall Htail) as Hunits.
  fold t in Hunits.
  pose proof (trim_no_space t (numeral_no_space t Hunits)) as Htrim.
  pose proof (trimStart_no_space t (numeral_no_space t Hunits)) as Hstart.
  assert ((d =? 45)%N = false /\ (d =? 43)%N = false) as [H45 H43].
  { apply isDigit_range in Hd. split; apply N.eqb_neq; lia. }
  split; [assumption |]. split; [by apply numeralUnit_not_comma |]. split.
  - unfold isNaN, isNumeric. rewrite Htrim. subst t. unfold numeral.
    destruct neg; cbn [app].
    + change (isSign 45%N) with true. cbn iota.
      rewrite unsignedDecimal_numeral by assumption.
      by rewrite orb_true_r.
    + unfold isSign. rewrite H43, H45. cbn [orb].
      rewrite unsignedDecimal_numeral by assumption.
      by rewrite orb_true_r.
  - unfold parseInt. rewrite Hstart. subst t. unfold numeral.
    destruct (takeDigits_app (d :: ds) tail Hall (fractionTail_head _ Htail))
      as [Htake _].
    destruct neg; cbn [app].
    + change (45 =? 45)%N with true. cbn iota.
      cbn [app] in Htake. by rewrite Htake.
    + rewrite H45, H43. cbn [app] in Htake. by rewrite Htake.
Qed.

(** What the string shape makes of an integer in decimal, alone or
    followed by a point and fraction digits. *)
Lemma decimal_facts z tail :
  fractionTail tail ->
  let t := decimal z ++ tail in
  trim t = t /\ (comma ∉ t) /\ isNaN t = false
  /\ parseInt t = number64 z.
Proof.
  intros Htail t. subst t. unfold decimal. rewrite <- app_assoc.
  fold (numeral (z <? 0)%Z (digitsText (Z.abs_nat z)) tail).
  pose proof (digitsText_digits (Z.abs_nat z)) as Hall.
  pose proof (digitsText_value (Z.abs_nat z)) as Hval.
  pose proof (digitsText_nonempty (Z.abs_nat z)) as Hne.
  destruct (digitsText (Z.abs_nat z)) as [|d ds]; [done |].
  cbn [allDigits forallb] in Hall. apply andb_true_iff in Hall as [Hd Hds].
  destruct (numeral_facts (z <? 0)%Z d ds tail Hd Hds Htail)
    as (H1 & H2 & H3 & H4).
  split; [assumption |]. split; [assumption |]. split; [assumption |].
  rewrite H4, Hval. f_equal.
  destruct (Z.ltb_spec z 0); lia.
Qed.

(** Integers up to 2^53 are binary64 values: nothing is rounded. *)
Lemma number64_exact z : (Z.abs z <= 2 ^ 53)%Z -> number64 z = ofZ z.
Proof.
  intros Hz. unfold number64.
  destruct (Z.leb_spec (Z.abs z) (2 ^ 53)); [reflexivity | lia].
Qed.

Lemma letterText_nonempty l : letterText l -> l <> [].
Proof. intros (H & _). by apply isNaN_nonempty. Qed.

(** A string of two parts, a letter text and a numeric text, in either
    order *)
Lemma two_parts l t :
  letterText l -> trim t = t -> comma ∉ t -> isNaN t = false ->
  forall s, s = l ++ comma :: t \/ s = t ++ comma :: l ->
  normalized (VStr s) = (VStr l, VNum (parseInt t))
  /\ parseErrors (VStr s) = [].
Proof.
  intros (Hl & Hcl & Htl) Htt Hct Ht s Hs.
  assert (stringParts s = [l; t] \/ stringParts s = [t; l]) as Hparts.
  { unfold stringParts. destruct Hs as [-> | ->]; [left | right];
      rewrite split_app_comma by assumption;
      rewrite split_no_comma by assumption; cbn [map];
      by rewrite Htl, Htt. }
  destruct (normalized_string s) as [-> ->].
  destruct Hparts as [-> | ->]; cbn [List.find]; unfold numericPart;
    rewrite Hl, Ht; cbn [negb]; done.
Qed.

(** A sequence or a record of two values, a non-empty string and a
    number, in either order *)
Lemma two_items l n items :
  l <> [] ->
  items = [VStr l; VNum n] \/ items = [VNum n; VStr l] ->
  fold_left scanItem items (VNull, VNull) = (VStr l, VNum n).
Proof.
  intros Hl [-> | ->]; cbn [fold_left]; unfold scanItem;
    cbn [truthy typeof isNull negb andb];
    repeat (case_bool_decide; try done; cbn [truthy isNull negb andb]).
Qed.

Lemma finish_found i l n msg st :
  l <> [] ->
  finish i (VStr l, VNum n) msg st =
  (mkCard i (VStr l) (VNum n) (Some (length (heap st))),
   withHeap (fun h => h ++ [[]]) st).
Proof.
  intros Hl. unfold finish. cbn [truthy isNull].
  by rewrite bool_decide_eq_false_2 by assumption.
Qed.

Lemma two_items_normalized l n raw :
  l <> [] ->
  (exists items, (raw = VArr items \/ exists fields, raw = VObj fields
                                        /\ map snd fields = items)
                 /\ (items = [VStr l; VNum n] \/ items = [VNum n; VStr l])) ->
  normalized raw = (VStr l, VNum n) /\ parseErrors raw = [].
Proof.
  intros Hl (items & Hraw & Hitems).
  pose proof (two_items l n items Hl Hitems) as Hscan.
  unfold normalized, parseErrors.
  destruct Hraw as [-> | (fields & -> & Hf)]; cbn [preProcess];
    rewrite ?Hf, Hscan, finish_found by assumption; done.
Qed.

Lemma processCard_ext raw raw' i :
  normalized raw = normalized raw' -> parseErrors raw = parseErrors raw' ->
  processCard raw i = processCard raw' i.
Proof.
  intros Hn He. rewrite !processCard_run. unfold finalErrors, cleaned.
  by rewrite Hn, He.
Qed.

(** ** Shapes *)

(** C3, as the code has it. A letter text and an integer of magnitude
    at most 2^53 (so that binary64 holds it exactly) written in decimal
    give the same card in the three shapes and in both orders: the same
    letter, the same digit and the same errors. *)
Theorem shapes_agree_on_integers l z k1 k2 i :
  letterText l ->
  (Z.abs z <= 2 ^ 53)%Z ->
  let card := processCard (VArr [VStr l; num z]) i in
  json_alphabet card = VStr l
  /\ json_number card = num z
  /\ processCard (VStr (l ++ comma :: decimal z)) i = card
  /\ processCard (VStr (decimal z ++ comma :: l)) i = card
  /\ processCard (VArr [num z; VStr l]) i = card
  /\ processCard (VObj [(k1, VStr l); (k2, num z)]) i = card
  /\ processCard (VObj [(k2, num z); (k1, VStr l)]) i = card.
Proof.
  intros Hl Hz card.
  pose proof (letterText_nonempty l Hl) as Hne.
  destruct (decimal_facts z [] (or_introl eq_refl)) as (Ht & Hc & Hn & Hp).
  rewrite app_nil_r in Ht, Hc, Hn, Hp.
  rewrite (number64_exact z Hz) in Hp.
  assert (forall raw,
            (exists items,
                (raw = VArr items
                 \/ exists fields, raw = VObj fields /\ map snd fields = items)
                /\ (items = [VStr l; num z] \/ items = [num z; VStr l])) ->
            normalized raw = (VStr l, num z) /\ parseErrors raw = []) as Hitems.
  { intros raw H. by apply two_items_normalized. }
  assert (normalized (VArr [VStr l; num z]) = (VStr l, num z)
          /\ parseErrors (VArr [VStr l; num z]) = []) as [Harr Herr].
  { apply Hitems. eexists. split; [by left | by left]. }
  assert (forall raw,
            normalized raw = (VStr l, num z) /\ parseErrors raw = [] ->
            processCard raw i = card) as Hsame.
  { intros raw [Hr He]. subst card. apply processCard_ext; congruence. }
  assert (forall s, s = l ++ comma :: decimal z \/ s = decimal z ++ comma :: l ->
            normalized (VStr s) = (VStr l, num z)
            /\ parseErrors (VStr s) = []) as Hstr.
  { intros s Hs. unfold num. rewrite <- Hp. by apply two_parts. }
  split; [| split; [| repeat split]].
  - subst card. rewrite processCard_run. cbn [json_alphabet]. by rewrite Harr.
  - subst card. rewrite processCard_run. cbn [json_number]. by rewrite Harr.
  - apply Hsame, Hstr. by left.
  - apply Hsame, Hstr. by right.
  - apply Hsame, Hitems. eexists. split; [by left | by right].
  - apply Hsame, Hitems. eexists. split; [| by left].
    right. eexists. split; reflexivity.
  - apply Hsame, Hitems. eexists. split; [| by right].
    right. eexists. split; reflexivity.
Qed.

Lemma letterText_D : letterText (js "D").
Proof.
  repeat split; try reflexivity.
  intros H. apply list_elem_of_In in H. cbn in H. intuition discriminate.
Qed.

Lemma letterText_A : letterText (js "A").
Proof.
  repeat split; try reflexivity.
  intros H. apply list_elem_of_In in H. cbn in H. intuition discriminate.
Qed.

Lemma shapes_agree_on_integers_witness :
  let card := processCard (VArr [VStr (js "D"); num 3]) 0 in
  json_alphabet card = VStr (js "D")
  /\ json_number card = num 3
  /\ processCard (VStr (js "D" ++ comma :: decimal 3)) 0 = card
  /\ processCard (VStr (decimal 3 ++ comma :: js "D")) 0 = card
  /\ processCard (VArr [num 3; VStr (js "D")]) 0 = card
  /\ processCard (VObj [(js "sideA", VStr (js "D")); (js "sideB", num 3)]) 0
     = card
  /\ processCard (VObj [(js "sideB", num 3); (js "sideA", VStr (js "D"))]) 0
     = card.
Proof.
  apply (shapes_agree_on_integers (js "D") 3 (js "sideA") (js "sideB") 0).
  - exact letterText_D.
  - vm_compute. discriminate.
Defined.

(** C3, as stated, fails: the sequence and the record keep the number
    they carry, the string keeps the integer [parseInt] reads, so the
    same letter and digit written with a fraction normalise differently;
    and a one-character letter that is numeric text is a letter in a
    sequence and a second number, so a parse error, in a string. *)
Lemma shapes_disagree :
  normalized (VStr (js "A,2.5")) = (VStr (js "A"), num 2)
  /\ normalized (VArr [VStr (js "A"); VNum (Finite (5 # 2))])
     = (VStr (js "A"), VNum (Finite (5 # 2)))
  /\ normalized (VObj [(js "sideA", VStr (js "A"));
                       (js "sideB", VNum (Finite (5 # 2)))])
     = (VStr (js "A"), VNum (Finite (5 # 2)))
  /\ strictEq (snd (normalized (VStr (js "A,2.5"))))
       (snd (normalized (VArr [VStr (js "A"); VNum (Finite (5 # 2))])))
     = false
  /\ normalized (VStr (js "A,2.5"))
     <> normalized (VArr [VStr (js "A"); VNum (Finite (5 # 2))])
  /\ normalized (VArr [VStr (js "7"); num 3]) = (VStr (js "7"), num 3)
  /\ normalized (VStr (js "7,3")) = (VNull, VNull).
Proof.
  repeat split; try reflexivity.
  vm_compute. discriminate.
Qed.

(** ** Fractions in the string shape *)

(** C10, as the code has it. When the numeric part of a two-part string
    is an integer of magnitude at most 2^53 in decimal followed by a
    point and digits, the card is the one the string with the integer
    alone gives: the digit is the integer before the point, and the
    validator reports what it reports for that integer, so nothing on
    account of the fraction. *)
Theorem fraction_truncated l z fs i s s0 :
  letterText l ->
  (Z.abs z <= 2 ^ 53)%Z ->
  allDigits fs = true ->
  (s = l ++ comma :: decimal z ++ 46%N :: fs /\ s0 = l ++ comma :: decimal z)
  \/ (s = (decimal z ++ 46%N :: fs) ++ comma :: l
      /\ s0 = decimal z ++ comma :: l) ->
  processCard (VStr s) i = processCard (VStr s0) i
  /\ json_alphabet (processCard (VStr s) i) = VStr l
  /\ json_number (processCard (VStr s) i) = num z.
Proof.
  intros Hl Hz Hfs Hs.
  assert (fractionTail (46%N :: fs)) as Htail.
  { right. by exists fs. }
  destruct (decimal_facts z (46%N :: fs) Htail) as (Ht & Hc & Hn & Hp).
  destruct (decimal_facts z [] (or_introl eq_refl)) as (Ht0 & Hc0 & Hn0 & Hp0).
  rewrite app_nil_r in Ht0, Hc0, Hn0, Hp0.
  rewrite (number64_exact z Hz) in Hp, Hp0.
  assert (normalized (VStr s) = (VStr l, num z)
          /\ parseErrors (VStr s) = []) as [Hr He].
  { unfold num. rewrite <- Hp. apply two_parts; try assumption.
    destruct Hs as [[-> _] | [-> _]]; [by left | by right]. }
  assert (normalized (VStr s0) = (VStr l, num z)
          /\ parseErrors (VStr s0) = []) as [Hr0 He0].
  { unfold num. rewrite <- Hp0. apply two_parts; try assumption.
    destruct Hs as [[_ ->] | [_ ->]]; [by left | by right]. }
  split; [apply processCard_ext; congruence |].
  rewrite processCard_run. cbn [json_alphabet json_number].
  by rewrite Hr.
Qed.

Lemma fraction_truncated_witness :
  processCard (VStr (js "A,2.7")) 0 = processCard (VStr (js "A,2")) 0
  /\ json_alphabet (processCard (VStr (js "A,2.7")) 0) = VStr (js "A")
  /\ json_number (processCard (VStr (js "A,2.7")) 0) = num 2.
Proof.
  apply (fraction_truncated (js "A") 2 (js "7") 0 (js "A,2.7") (js "A,2")).
  - exact letterText_A.
  - vm_compute. discriminate.
  - reflexivity.
  - left. split; reflexivity.
Defined.

Example fraction_examples :
  map (fun s => processCard (VStr (js s)) 0)
    ["A,2.7"; "2.7,A"; "A,12.7"; "D,3.9"; "A,-2.7"; "A,2."]%string
  = [ mkCardJSON 0 (VStr (js "A")) (num 2) (Some []);
      mkCardJSON 0 (VStr (js "A")) (num 2) (Some []);
      mkCardJSON 0 (VStr (js "A")) (num 12) (Some [msgNumber]);
      mkCardJSON 0 (VStr (js "D")) (num 3) (Some []);
      mkCardJSON 0 (VStr (js "A")) (num (-2)) (Some [msgNumber]);
      mkCardJSON 0 (VStr (js "A")) (num 2) (Some []) ].
Proof. reflexivity. Qed.

(** C10, as stated, fails: numeric text with a fraction and no digit
    before the point is taken as the digit and read by [parseInt] as
    NaN, which the digit rule rejects; and a fraction in exponent
    notation is cut at its first non-digit, not at its integer part. *)
Lemma fraction_without_integer_digits_rejected :
  isNaN (js ".7") = false
  /\ processCard (VStr (js "A,.7")) 0
     = mkCardJSON 0 (VStr (js "A")) (VNum NaN) (Some [msgNumber])
  /\ ~ (json_number (processCard (VStr (js "A,.7")) 0) = num 0
        /\ json_errors (processCard (VStr (js "A,.7")) 0) = Some []).
Proof.
  repeat split; try reflexivity.
  intros [H _]. vm_compute in H. discriminate H.
Qed.

Example fraction_in_exponent_notation :
  map (fun s => processCard (VStr (js s)) 0) ["A,27e-1"; "A,0.27e1"]%string
  = [ mkCardJSON 0 (VStr (js "A")) (num 27) (Some [msgNumber]);
      mkCardJSON 0 (VStr (js "A")) (num 0) (Some []) ].
Proof. reflexivity. Qed.

(** ** Feeding a card back *)

Lemma scanItem_faces acc item : faces acc -> faces (scanItem acc item).
Proof.
  destruct acc as [a n]. intros [Ha Hn]. unfold scanItem.
  destruct (negb (truthy a) && bool_decide (typeof item = TString)) eqn:E1.
  - apply andb_true_iff in E1 as [_ E1]. apply bool_decide_eq_true in E1.
    split; [| assumption]. right. destruct item; try discriminate. eauto.
  - destruct (isNull n && bool_decide (typeof item = TNumber)) eqn:E2;
      [| by split].
    apply andb_true_iff in E2 as [_ E2]. apply bool_decide_eq_true in E2.
    split; [assumption |]. right. destruct item; try discriminate. eauto.
Qed.

Lemma scanPart_faces acc part : faces acc -> faces (scanPart acc part).
Proof.
  destruct acc as [a n]. intros [Ha Hn]. unfold scanPart.
  destruct (negb (truthy a) && isNaN part); [split; eauto |].
  destruct (isNull n && negb (isNaN part)); split; eauto.
Qed.

Lemma fold_faces {A} (f : JSValue * JSValue -> A -> JSValue * JSValue) l :
  (forall acc x, faces acc -> faces (f acc x)) ->
  forall acc, faces acc -> faces (fold_left f l acc).
Proof.
  intros Hf. induction l as [|x l IH]; intros acc Hacc; [assumption |].
  cbn. apply IH, Hf, Hacc.
Qed.

Lemma faces_null : faces (VNull, VNull).
Proof. split; by left. Qed.

(** A raw card either parses, to a non-empty string and a number with no
    message, or does not, with the message of its shape. *)
Lemma normalized_shape raw :
  (exists l x, l <> [] /\ normalized raw = (VStr l, VNum x)
               /\ parseErrors raw = [])
  \/ (normalized raw = (VNull, VNull)
      /\ parseErrors raw = [shapeMessage raw]).
Proof.
  assert (forall found msg,
    faces found ->
    let r := finish 0 found msg initialState in
    (exists l x, l <> [] /\ (alphabet (fst r), number (fst r)) = (VStr l, VNum x)
                 /\ concat (heap (snd r)) = [])
    \/ ((alphabet (fst r), number (fst r)) = (VNull, VNull)
        /\ concat (heap (snd r)) = [msg])) as Hfinish.
  { intros found msg Hfaces r.
    destruct (finish_cases found msg)
      as [(_ & _ & Hr & Ht & Hn & Hh) | (Ha & Hn & _ & Hh)];
      fold r in Hr || fold r in Ha; fold r in Hh.
    - left. destruct found as [a n]. destruct Hfaces as [Hfa Hfn].
      cbn [fst snd] in *.
      destruct Hfa as [-> | [l ->]]; [discriminate |].
      destruct Hfn as [-> | [x ->]]; [discriminate |].
      exists l, x. rewrite Hr, Hh. repeat split.
      intros ->. discriminate.
    - right. fold r in Hn. by rewrite Ha, Hn, Hh. }
  unfold normalized, parseErrors.
  destruct raw; try (right; split; reflexivity); cbn [preProcess shapeMessage];
    apply Hfinish; apply fold_faces;
    auto using scanItem_faces, scanPart_faces, faces_null.
Qed.

Lemma feedBack_unparsed i :
  json_errors (processCard (feedBack (mkCardJSON i VNull VNull None)) i)
  = Some [msgObject].
Proof. rewrite processCard_run. reflexivity. Qed.

(** C8, as the code has it. Feeding the letter and digit of a processed
    card back as a loose record gives the same error list exactly when
    the normaliser had found a letter and a digit, or the raw card was a
    record itself. *)
Theorem feedback_same_errors_iff raw i :
  json_errors (processCard (feedBack (processCard raw i)) i)
  = json_errors (processCard raw i)
  <-> (fst (normalized raw) <> VNull \/ exists fields, raw = VObj fields).
Proof.
  rewrite (processCard_run raw i). unfold feedBack.
  cbn [json_alphabet json_number json_errors].
  destruct (normalized_shape raw) as [(l & x & Hl & Hn & He) | (Hn & He)].
  - rewrite Hn. cbn [fst snd]. split; [intros _; by left | intros _].
    rewrite processCard_run. cbn [json_errors]. f_equal.
    destruct (two_items_normalized l x
                (VObj [(js "letter", VStr l); (js "digit", VNum x)]) Hl)
      as [Hn' He'].
    { eexists. split; [| by left]. right. eexists. split; reflexivity. }
    unfold finalErrors. rewrite He, He'. cbn [app].
    apply ruleErrors_ext; cbn [cleaned alphabet number]; by rewrite Hn, Hn'.
  - rewrite Hn. cbn [fst snd].
    pose proof (feedBack_unparsed i) as Hfb. unfold feedBack in Hfb.
    cbn [json_alphabet json_number] in Hfb. rewrite Hfb.
    unfold finalErrors. rewrite He.
    assert (ruleErrors (cleaned 0 0 raw) = []) as ->.
    { unfold ruleErrors. cbn [cleaned alphabet number]. by rewrite Hn. }
    cbn [app]. split.
    + intros H. right. destruct raw; try discriminate H. eauto.
    + intros [H | [fields ->]]; [done | reflexivity].
Qed.

(** C8, as stated, fails: an unparsable string carries the message of
    strings, and its two null faces fed back as a record carry the
    message of records. *)
Lemma feedback_changes_parse_message :
  json_errors (processCard (VStr (js "Test")) 17) = Some [msgString]
  /\ json_errors (processCard (feedBack (processCard (VStr (js "Test")) 17)) 17)
     = Some [msgObject]
  /\ json_errors (processCard (feedBack (processCard (VStr (js "Test")) 17)) 17)
     <> json_errors (processCard (VStr (js "Test")) 17).
Proof.
  repeat split; try reflexivity.
  vm_compute. discriminate.
Qed.

Example feedback_examples :
  map (fun raw =>
         (json_errors (processCard raw 0),
          json_errors (processCard (feedBack (processCard raw 0)) 0)))
    [ VStr (js "D,4"); VArr [VStr (js "dd"); num 28]; VStr (js "A,");
      VArr [num 1]; VNum (ofZ 5); VObj [(js "a", num 1)] ]
  = [ (Some [msgPairing], Some [msgPairing]);
      (Some [msgLetter; msgNumber], Some [msgLetter; msgNumber]);
      (Some [msgNumber], Some [msgNumber]);
      (Some [msgArray], Some [msgObject]);
      (Some [msgUnknown], Some [msgObject]);
      (Some [msgObject], Some [msgObject]) ].
Proof. reflexivity. Qed.

(** * Further properties of the code *)

(** ** Sequences and records *)

(** One turn of the loop over the values: the item becomes the letter,
    or the digit, or is passed over. *)
Lemma scanItem_cases a n item :
  (truthy a = false /\ (exists s, item = VStr s)
   /\ scanItem (a, n) item = (item, n))
  \/ ((truthy a = true \/ forall s, item <> VStr s)
      /\ isNull n = true /\ (exists m, item = VNum m)
      /\ scanItem (a, n) item = (a, item))
  \/ ((truthy a = true \/ forall s, item <> VStr s)
      /\ (isNull n = false \/ forall m, item <> VNum m)
      /\ scanItem (a, n) item = (a, n)).
Proof.
  unfold scanItem.
  destruct (truthy a) eqn:Ha; cbn [negb andb].
  - destruct (isNull n) eqn:Hn; cbn [andb]; [| right; right; auto].
    case_bool_decide as Ht.
    + right. left. destruct item; try discriminate Ht. eauto 10.
    + right. right. repeat split; auto. right. intros m ->. by apply Ht.
  - case_bool_decide as Hs.
    + left. destruct item; try discriminate Hs. eauto.
    + assert (forall s, item <> VStr s) as Hns.
      { intros s ->. by apply Hs. }
      destruct (isNull n) eqn:Hn; cbn [andb]; [| right; right; auto].
      case_bool_decide as Ht.
      * right. left. destruct item; try discriminate Ht. eauto 10.
      * right. right. repeat split; auto. right. intros m ->. by apply Ht.
Qed.

(** The loop over the values keeps the first non-empty string and the
    first number: an empty string is overwritten by the next string. *)
Lemma scan_items items : forall a n,
  let r := fold_left scanItem items (a, n) in
  (if truthy a then fst r = a
   else match List.find nonEmptyString items with
        | Some l => fst r = l
        | None => truthy (fst r) = false
        end)
  /\ snd r = (if isNull n
              then match List.find isNumberValue items with
                   | Some x => x
                   | None => n
                   end
              else n).
Proof.
  induction items as [|item items IH]; intros a n r.
  - subst r. cbn. destruct (truthy a) eqn:Ha, (isNull n); auto.
  - subst r. cbn [fold_left List.find].
    destruct (scanItem_cases a n item)
      as [(Ha & [s ->] & ->) | [(Ha & Hn & [m ->] & ->) | (Ha & Hn & ->)]].
    + destruct (IH (VStr s) n) as [H1 H2]. rewrite Ha.
      cbn [isNumberValue]. split; [| assumption].
      destruct s as [|c s]; cbn [nonEmptyString truthy] in *.
      * rewrite bool_decide_eq_true_2 in H1 by reflexivity. assumption.
      * rewrite bool_decide_eq_false_2 in H1 by discriminate. assumption.
    + destruct (IH a (VNum m)) as [H1 H2]. rewrite Hn.
      cbn [nonEmptyString isNumberValue isNull] in *.
      split; assumption.
    + destruct (IH a n) as [H1 H2]. split.
      * destruct (truthy a) eqn:Hta; [assumption |].
        destruct Ha as [Ha | Ha]; [discriminate |].
        assert (nonEmptyString item = false) as ->; [| assumption].
        destruct item; try reflexivity. by destruct (Ha s).
      * destruct (isNull n) eqn:Hnn; [| assumption].
        destruct Hn as [Hn | Hn]; [discriminate |].
        assert (isNumberValue item = false) as ->; [| assumption].
        destruct item; try reflexivity. by destruct (Hn n0).
Qed.

Lemma find_nonEmptyString items l :
  List.find nonEmptyString items = Some l ->
  exists c s, l = VStr (c :: s).
Proof.
  intros H. apply find_some_pred in H.
  destruct l as [| | | |[|c s]| |]; try discriminate H. eauto.
Qed.

Lemma find_isNumberValue items x :
  List.find isNumberValue items = Some x -> exists n, x = VNum n.
Proof.
  intros H. apply find_some_pred in H.
  destruct x; try discriminate H. eauto.
Qed.

(** X1. For a sequence, and for a record through its values in
    enumeration order, the normaliser returns the first value that is a
    non-empty string as the letter and the first value that is a number
    as the digit, with no parse error; when either is missing it returns
    the parse error of the shape. Keys, positions and values of any other
    kind, empty strings included, play no part. *)
Theorem sequence_scanned raw items i st :
  itemsOf raw = Some items ->
  preProcess raw i st =
  match List.find nonEmptyString items, List.find isNumberValue items with
  | Some l, Some x =>
      (mkCard i l x (Some (length (heap st))),
       withHeap (fun h => h ++ [[]]) st)
  | _, _ =>
      (mkCard i VNull VNull (Some (length (heap st))),
       withHeap (fun h => h ++ [[shapeMessage raw]]) st)
  end.
Proof.
  intros Hitems.
  assert (preProcess raw i st
          = finish i (fold_left scanItem items (VNull, VNull))
              (shapeMessage raw) st) as ->.
  { destruct raw; try discriminate Hitems; cbn in Hitems;
      inversion Hitems; reflexivity. }
  destruct (scan_items items VNull VNull) as [Hl Hx].
  cbn [truthy isNull] in Hl, Hx.
  destruct (fold_left scanItem items (VNull, VNull)) as [a n].
  cbn [fst snd] in Hl, Hx. unfold finish.
  destruct (List.find nonEmptyString items) as [l|] eqn:El.
  - destruct (find_nonEmptyString _ _ El) as (c & s & ->). subst a.
    destruct (List.find isNumberValue items) as [x|] eqn:Ex.
    + destruct (find_isNumberValue _ _ Ex) as (m & ->). subst n.
      cbn [truthy isNull].
      rewrite bool_decide_eq_false_2 by discriminate. reflexivity.
    + subst n. cbn [truthy isNull].
      rewrite bool_decide_eq_false_2 by discriminate. reflexivity.
  - rewrite Hl. cbn [negb orb]. by destruct (List.find isNumberValue items).
Qed.

Lemma sequence_scanned_witness :
  preProcess
    (VArr [VNull; VStr (js ""); num 7; VStr (js "Q"); VStr (js "R"); num 8])
    4 initialState
  = (mkCard 4 (VStr (js "Q")) (num 7) (Some 0%nat), mkState [[]] [] 0).
Proof.
  apply (sequence_scanned
           (VArr [VNull; VStr (js ""); num 7; VStr (js "Q"); VStr (js "R");
                  num 8])
           [VNull; VStr (js ""); num 7; VStr (js "Q"); VStr (js "R"); num 8]
           4 initialState).
  reflexivity.
Defined.

(** ** What the normaliser returns *)

(** X2. Whatever the raw card, the normaliser allocates one array for
    the errors at the first free location, leaves the rest of the state
    alone, numbers the card with the index it was given, and returns
    either a non-empty string and a number with no error, or two nulls
    with exactly the parse message of the shape: never one face alone. *)
Theorem normaliser_all_or_nothing raw i st :
  exists card es,
    preProcess raw i st = (card, withHeap (fun h => h ++ [es]) st)
    /\ id card = i
    /\ errors card = Some (length (heap st))
    /\ ((exists l x, l <> [] /\ alphabet card = VStr l
                     /\ number card = VNum x /\ es = [])
        \/ (alphabet card = VNull /\ number card = VNull
            /\ es = [shapeMessage raw])).
Proof.
  eexists _, _. split; [apply preProcess_run |].
  cbn [id errors alphabet number]. split; [reflexivity |].
  split; [reflexivity |].
  destruct (normalized_shape raw) as [(l & x & Hl & Hn & He) | (Hn & He)];
    rewrite Hn, He; cbn [fst snd]; [left | right]; eauto 10.
Qed.

(** ** Valid cards *)

Lemma letterValid_spec card :
  letterInvalid card = false <-> singleUppercase (alphabet card).
Proof.
  split.
  - intros H. unfold letterInvalid in H.
    destruct (alphabet card) as [| | | |s| |]; try discriminate H.
    destruct s as [|c [|d s]]; try discriminate H.
    change (js "A") with [65%N] in H. change (js "Z") with [90%N] in H.
    cbn [str_ltb length Nat.eqb negb orb] in H.
    rewrite !andb_false_r, !orb_false_r in H.
    apply orb_false_iff in H as [H1 H2].
    apply N.ltb_ge in H1, H2. exists c. split; [reflexivity | lia].
  - intros H. destruct (letterInvalid card) eqn:E; [| reflexivity].
    apply letterInvalid_spec in E. contradiction.
Qed.

Lemma numberValid_spec card :
  numberInvalid card = false <-> digit0to9 (number card).
Proof.
  split.
  - intros H. unfold numberInvalid in H.
    destruct (number card) as [| | |n| | |]; try discriminate H.
    destruct n as [|s|q]; try discriminate H; [by destruct s |].
    cbn [num_ltb ofZ] in H. unfold Qltb in H.
    rewrite !orb_false_iff, !negb_false_iff in H.
    destruct H as [[H0 H9] Hint].
    apply Qle_bool_iff in H0, H9. apply isInteger_spec in Hint as [z Hz].
    exists z. split; [by exists q |].
    rewrite Hz in H0, H9. rewrite <- !Zle_Qle in *. lia.
  - intros H. destruct (numberInvalid card) eqn:E; [| reflexivity].
    apply numberInvalid_spec in E. contradiction.
Qed.

Lemma strictEq_three v :
  strictEq v (VNum (ofZ 3)) = true <-> isIntegerValue v 3.
Proof.
  unfold isIntegerValue.
  destruct v as [| | |n| | |]; cbn [strictEq];
    try (split; [discriminate | intros (q & Hq & _); discriminate]).
  destruct n as [|s|q]; cbn [num_eqb ofZ];
    try (split; [discriminate | intros (q & Hq & _); discriminate]).
  rewrite Qeq_bool_iff. split.
  - intros H. by exists q.
  - intros (q' & Hq & H). by inversion Hq; subst q'.
Qed.

Lemma strictEq_D v : strictEq v (VStr (js "D")) = true <-> v = VStr (js "D").
Proof.
  destruct v; cbn [strictEq]; try (split; discriminate).
  rewrite bool_decide_eq_true. split; [by intros -> | by intros [=]].
Qed.

Lemma pairingValid_spec card :
  pairingInvalid card = false <->
  (alphabet card = VStr (js "D") -> isIntegerValue (number card) 3).
Proof.
  unfold pairingInvalid. rewrite andb_false_iff, negb_false_iff.
  rewrite <- strictEq_three, <- strictEq_D. split.
  - intros [H | H] HD; [congruence | assumption].
  - intros H. destruct (strictEq (alphabet card) (VStr (js "D")));
      [right; by apply H | by left].
Qed.

Lemma pairing_excludes_letter card :
  pairingInvalid card = true -> letterInvalid card = false.
Proof.
  intros H. apply pairingInvalid_spec in H as [HD _].
  unfold letterInvalid. by rewrite HD.
Qed.

(** The messages of a card, by cases on how the normaliser fared *)
Lemma finalErrors_cases raw :
  (exists l x, l <> [] /\ normalized raw = (VStr l, VNum x)
     /\ finalErrors raw =
        (if letterInvalid (cleaned 0 0 raw) then [msgLetter] else [])
        ++ (if numberInvalid (cleaned 0 0 raw) then [msgNumber] else [])
        ++ (if pairingInvalid (cleaned 0 0 raw) then [msgPairing] else []))
  \/ (normalized raw = (VNull, VNull)
      /\ finalErrors raw = [shapeMessage raw]).
Proof.
  unfold finalErrors.
  destruct (normalized_shape raw) as [(l & x & Hl & Hn & He) | (Hn & He)].
  - left. exists l, x. split; [assumption |]. split; [assumption |].
    rewrite He. cbn [app]. apply ruleErrors_checked.
    cbn [cleaned alphabet number]. by rewrite Hn.
  - right. split; [assumption |]. rewrite He.
    unfold ruleErrors. cbn [cleaned alphabet number]. by rewrite Hn.
Qed.

Lemma finalErrors_nil_iff raw :
  finalErrors raw = [] <-> validFaces (normalized raw).
Proof.
  unfold validFaces.
  rewrite <- (letterValid_spec (cleaned 0 0 raw)).
  rewrite <- (numberValid_spec (cleaned 0 0 raw)).
  pose proof (pairingValid_spec (cleaned 0 0 raw)) as Hp.
  cbn [cleaned alphabet number] in Hp. rewrite <- Hp.
  destruct (finalErrors_cases raw) as [(l & x & _ & Hn & ->) | (Hn & ->)].
  - destruct (letterInvalid _), (numberInvalid _), (pairingInvalid _);
      cbn [app]; split; try discriminate; try done;
      intros (? & ? & ?); discriminate.
  - unfold letterInvalid. cbn [cleaned alphabet]. rewrite Hn. cbn [fst].
    split; [discriminate | intros (? & _); discriminate].
Qed.

(** X3. The error list of a processed card is empty exactly when the
    normaliser found a letter that is one character in A-Z and a digit
    that is an integer in [0, 9], equal to 3 when the letter is D. *)
Theorem no_errors_iff_valid raw i :
  json_errors (processCard raw i) = Some [] <-> validFaces (normalized raw).
Proof.
  rewrite processCard_run, <- finalErrors_nil_iff. cbn [json_errors].
  split; [by intros [=] | by intros ->].
Qed.

(** X4. The error list of a processed card is the single parse message
    of its shape or else a list of rule messages in the order letter,
    digit, pairing; the letter and the pairing message never come
    together, since the pairing rule needs the letter D, so a card never
    carries more than two messages, and never a parse message with a
    rule message. *)
Theorem errors_are_one_of raw i :
  exists es,
    json_errors (processCard raw i) = Some es
    /\ es ∈ possibleErrors raw
    /\ length es <= 2.
Proof.
  rewrite processCard_run. cbn [json_errors]. eexists. split; [reflexivity |].
  unfold possibleErrors.
  destruct (finalErrors_cases raw) as [(l & x & _ & _ & ->) | (_ & ->)].
  - pose proof (pairing_excludes_letter (cleaned 0 0 raw)) as Hex.
    destruct (letterInvalid _), (numberInvalid _), (pairingInvalid _);
      cbn [app length]; try (specialize (Hex eq_refl); discriminate Hex);
      (split; [repeat constructor | lia]).
  - cbn [length]. split; [repeat constructor | lia].
Qed.

(** ** Whole decks and bad requests *)

Lemma hasErrorsJSON_processCard raw k :
  hasErrorsJSON (processCard raw k) = false <-> validFaces (normalized raw).
Proof.
  rewrite <- finalErrors_nil_iff, processCard_run.
  unfold hasErrorsJSON. cbn [json_errors].
  destruct (finalErrors raw); cbn; split; done.
Qed.

Lemma filter_nil_iff {A} (p : A -> bool) (l : list A) :
  List.filter p l = [] <-> forall x, In x l -> p x = false.
Proof.
  induction l as [|x l IH]; cbn; [split; [intros _ ? [] | done] |].
  destruct (p x) eqn:E.
  - split; [discriminate |]. intros H. rewrite (H x) in E by auto.
    discriminate.
  - rewrite IH. split.
    + intros H y [<- | Hy]; auto.
    + intros H y Hy. apply H. auto.
Qed.

Lemma processed_all_valid raws :
  List.filter hasErrorsJSON (processed raws) = [] <->
  forall raw, raw ∈ raws -> validFaces (normalized raw).
Proof.
  rewrite filter_nil_iff. unfold processed. split.
  - intros H raw Hraw. apply list_elem_of_lookup in Hraw as [k Hk].
    apply (hasErrorsJSON_processCard raw k), H.
    apply list_elem_of_In, list_elem_of_lookup. exists k.
    by rewrite list_lookup_imap, Hk.
  - intros H c Hc. apply list_elem_of_In, list_elem_of_lookup in Hc as [k Hk].
    rewrite list_lookup_imap in Hk.
    destruct (raws !! k) as [raw|] eqn:Hraw; [| discriminate].
    cbn in Hk. inversion Hk; subst c.
    apply hasErrorsJSON_processCard, H.
    apply list_elem_of_lookup. eauto.
Qed.

Section DeckProperties.

Variable uuidv1 : nat -> JSString.

(** X5. A deck of 20 is answered with the acceptance (status 200)
    exactly when every card is valid; otherwise the reply has status 400
    and a discardCount between 1 and 20. *)
Theorem deck_accepted_iff_all_valid req raws st :
  submits req (VArr raws) ->
  length raws = 20 ->
  let reply := fst (postCards uuidv1 req st) in
  (reply = acceptance <->
   forall raw, raw ∈ raws -> validFaces (normalized raw))
  /\ (reply = acceptance
      \/ exists n, status reply = 400 /\ discardCount reply = Some n
                   /\ 1 <= n <= 20).
Proof.
  intros Hreq Hlen reply. subst reply.
  rewrite (postCards_run uuidv1 req raws st Hreq Hlen). cbn [fst].
  rewrite <- processed_all_valid.
  pose proof (filter_length_le hasErrorsJSON (processed raws)) as Hle.
  unfold processed in Hle at 2. rewrite length_imap, Hlen in Hle.
  destruct (List.filter hasErrorsJSON (processed raws)) as [|c l] eqn:E.
  - cbn. split; [done | by left].
  - cbn [length Nat.ltb Nat.leb]. split; [split; discriminate |].
    right. exists (S (length l)). cbn in *. repeat split; lia.
Qed.

(** X6. A request that does not carry an array (another content type,
    text that is not JSON, or a value that is not an array, a missing
    [cards] field included) is answered with status 400 and an [error]
    message only, and leaves the store, the history and the identifier
    count as they were. *)
Theorem non_array_request_rejected req st :
  (forall raws, ~ submits req (VArr raws)) ->
  postCards uuidv1 req st = (errorResponse (badRequestMessage req), st).
Proof.
  intros H. destruct req as [cards | [cards|] |]; try reflexivity.
  - destruct cards; try reflexivity. destruct (H items). by left.
  - destruct cards; try reflexivity. destruct (H items). by right.
Qed.

End DeckProperties.

Lemma deck_accepted_iff_all_valid_witness :
  let reply :=
    fst (postCards testIds (JsonRequest (VArr validDeck)) initialState) in
  (reply = acceptance <->
   forall raw, raw ∈ validDeck -> validFaces (normalized raw))
  /\ (reply = acceptance
      \/ exists n, status reply = 400 /\ discardCount reply = Some n
                   /\ 1 <= n <= 20).
Proof.
  apply (deck_accepted_iff_all_valid testIds (JsonRequest (VArr validDeck))
           validDeck initialState).
  - by left.
  - reflexivity.
Defined.

Lemma non_array_request_rejected_witness :
  postCards testIds (JsonRequest VUndefined) initialState
  = (errorResponse "Input must be an array of cards", initialState).
Proof.
  apply (non_array_request_rejected testIds (JsonRequest VUndefined)
           initialState).
  intros raws [H | H]; discriminate H.
Defined.

(** ** The validator and the store *)

Lemma extends_refl st : extends st st.
Proof.
  repeat split. intros a es H. exists []. by rewrite app_nil_r.
Qed.

Lemma extends_trans st1 st2 st3 :
  extends st1 st2 -> extends st2 st3 -> extends st1 st3.
Proof.
  intros (H1 & H2 & H3) (K1 & K2 & K3). repeat split; try congruence.
  intros a es Ha. destruct (H3 a es Ha) as [m1 Hm1].
  destruct (K3 a _ Hm1) as [m2 Hm2]. exists (m1 ++ m2).
  by rewrite app_assoc.
Qed.

Lemma push_extends a msg st : extends st (snd (push a msg st)).
Proof.
  repeat split. intros b es Hb. cbn.
  destruct (decide (a = b)) as [-> | Hne].
  - exists [msg]. by rewrite list_lookup_alter_eq, Hb.
  - exists []. by rewrite list_lookup_alter_ne, app_nil_r.
Qed.

Lemma newArray_extends es0 st : extends st (snd (newArray es0 st)).
Proof.
  repeat split. intros b es Hb. cbn. exists [].
  rewrite app_nil_r. by apply lookup_app_l_Some.
Qed.

Lemma when_extends b card msg st : extends st (snd (when b card msg st)).
Proof.
  unfold when. destruct b; [| apply extends_refl].
  unfold pushError. destruct (errors card) as [a|].
  - apply (push_extends a msg st).
  - unfold bind. cbn [newArray].
    eapply extends_trans; [apply (newArray_extends [] st) |].
    apply (push_extends (length (heap st)) msg).
Qed.

Lemma validateCard_extends card st : extends st (snd (validateCard card st)).
Proof.
  unfold validateCard.
  destruct (isNull (alphabet card) && isNull (number card));
    [apply extends_refl |].
  unfold bind.
  pose proof (when_extends (letterInvalid card) card msgLetter st) as H1.
  destruct (when (letterInvalid card) card msgLetter st) as [c1 st1].
  pose proof (when_extends (numberInvalid c1) c1 msgNumber st1) as H2.
  destruct (when (numberInvalid c1) c1 msgNumber st1) as [c2 st2].
  pose proof (when_extends (pairingInvalid c2) c2 msgPairing st2) as H3.
  destruct (when (pairingInvalid c2) c2 msgPairing st2) as [c3 st3].
  cbn [snd] in *.
  exact (extends_trans _ _ _ H1 (extends_trans _ _ _ H2 H3)).
Qed.

Lemma traverse_cons {A B} (f : A -> M B) x r st :
  traverse f (x :: r) st =
  let '(y, st1) := f x st in
  let '(ys, st2) := traverse f r st1 in (y :: ys, st2).
Proof.
  cbn [traverse]. unfold bind, ret. destruct (f x st) as [y st1].
  by destruct (traverse f r st1).
Qed.

(** X7. The validator returns the cards it was given, in the same order
    and with the same fields, and on the store it only appends: every
    array that existed keeps its messages at the front; the history and
    the identifier count are not touched. *)
Theorem validator_only_appends cards st :
  fst (validateCards cards st) = cards
  /\ extends st (snd (validateCards cards st)).
Proof.
  unfold validateCards. revert st.
  induction cards as [|c cs IH]; intros st.
  - split; [reflexivity | apply extends_refl].
  - rewrite traverse_cons.
    pose proof (validateCard_fst c st) as Hc.
    pose proof (validateCard_extends c st) as He.
    destruct (validateCard c st) as [c' st1]. cbn [fst snd] in Hc, He.
    destruct (IH st1) as [Hcs Hes].
    destruct (traverse validateCard cs st1) as [cs' st2].
    cbn [fst snd] in *. subst. split; [reflexivity |].
    exact (extends_trans _ _ _ He Hes).
Qed.

Lemma when_none card msg st :
  errors card = None ->
  when true card msg st =
  (mkCard (id card) (alphabet card) (number card) (Some (length (heap st))),
   withHeap (fun h => h ++ [[msg]]) st).
Proof.
  intros He. unfold when, pushError. rewrite He.
  unfold bind, newArray, push, ret. f_equal.
  rewrite withHeap_withHeap. apply withHeap_ext.
  rewrite <- (Nat.add_0_r (length (heap st))).
  by rewrite alter_app_r.
Qed.

Lemma when_last b card msg st h es :
  heap st = h ++ [es] ->
  errors card = Some (length h) ->
  when b card msg st =
  (card, withHeap (fun _ => h ++ [es ++ (if b then [msg] else [])]) st).
Proof.
  intros Hh He. rewrite (when_run b card msg (length h) st He).
  f_equal. apply withHeap_ext. rewrite Hh.
  rewrite <- (Nat.add_0_r (length h)). by rewrite alter_app_r.
Qed.

(** X8. When a card has no [errors] array, the validator still returns
    the card as it was, without one: the messages of the rules it breaks
    go to a fresh array that only the discarded original holds, so the
    returned card does not count as invalid. *)
Theorem missing_errors_array_hides_messages card st :
  errors card = None ->
  fst (validateCard card st) = card
  /\ hasErrors (heap (snd (validateCard card st))) (fst (validateCard card st))
     = false
  /\ heap (snd (validateCard card st))
     = heap st ++ match ruleErrors card with [] => [] | es => [es] end.
Proof.
  intros He. rewrite validateCard_fst. split; [reflexivity |].
  split; [unfold hasErrors; by rewrite He |].
  unfold validateCard, ruleErrors.
  destruct (isNull (alphabet card) && isNull (number card));
    [cbn; by rewrite app_nil_r |].
  unfold bind.
  destruct (letterInvalid card) eqn:EL.
  - rewrite (when_none card msgLetter st He).
    erewrite (when_last _ _ msgNumber _ (heap st) [msgLetter]);
      [| reflexivity | reflexivity].
    erewrite (when_last _ _ msgPairing _ (heap st));
      [| reflexivity | reflexivity].
    unfold numberInvalid, pairingInvalid. cbn [alphabet number snd heap withHeap].
    by rewrite <- app_assoc.
  - change (when false card msgLetter st) with (card, st). cbv beta iota.
    destruct (numberInvalid card) eqn:EN.
    + rewrite (when_none card msgNumber st He).
      erewrite (when_last _ _ msgPairing _ (heap st) [msgNumber]);
        [| reflexivity | reflexivity].
      unfold pairingInvalid. cbn [alphabet number snd heap withHeap].
      reflexivity.
    + change (when false card msgNumber st) with (card, st). cbv beta iota.
      destruct (pairingInvalid card) eqn:EP.
      * rewrite (when_none card msgPairing st He). reflexivity.
      * cbn. by rewrite app_nil_r.
Qed.

Lemma missing_errors_array_hides_messages_witness :
  let card := mkCard 0 (VStr (js "dd")) (num 28) None in
  fst (validateCard card initialState) = card
  /\ hasErrors (heap (snd (validateCard card initialState)))
       (fst (validateCard card initialState)) = false
  /\ heap (snd (validateCard card initialState))
     = heap initialState ++ match ruleErrors card with [] => [] | es => [es] end.
Proof.
  apply (missing_errors_array_hides_messages
           (mkCard 0 (VStr (js "dd")) (num 28) None) initialState).
  reflexivity.
Defined.

Example missing_errors_array_example :
  let card := mkCard 0 (VStr (js "dd")) (num 28) None in
  validateCard card initialState
  = (card, mkState [[msgLetter; msgNumber]] [] 0).
Proof. reflexivity. Qed.

(** ** The layout of the history *)

Section LayoutProperties.

Variable uuidv1 : nat -> JSString.

Lemma historyLayout_step req st :
  historyLayout uuidv1 st ->
  historyLayout uuidv1 (snd (postCards uuidv1 req st)).
Proof.
  intros Hlayout. pose proof Hlayout as (Hheap & Hlen & Hentries).
  destruct (postCards_state uuidv1 req st) as [-> | (raws & Hreq & Hraws)];
    [exact Hlayout |].
  rewrite (postCards_run uuidv1 req raws st Hreq Hraws). cbn [snd].
  unfold historyLayout. cbn [heap cardHistory uuidCalls].
  rewrite !length_app, !length_map, length_imap, Hraws.
  split; [lia |]. split; [lia |].
  intros j e Hj. apply lookup_app_Some in Hj as [Hj | [Hge Hj]].
  - by apply Hentries.
  - rewrite list_lookup_fmap, list_lookup_imap in Hj.
    destruct (raws !! (j - length (cardHistory st))) as [raw|] eqn:Hraw;
      [| discriminate].
    apply lookup_lt_Some in Hraw. cbn in Hj. inversion Hj; subst e; clear Hj.
    cbn [entryOf cleaned cardId deckId entry_errors id errors].
    repeat split.
    + apply (Nat.mod_unique j 20 (uuidCalls st)); lia.
    + f_equal. apply (Nat.div_unique j 20 (uuidCalls st)
                        (j - length (cardHistory st))); lia.
    + f_equal. lia.
Qed.

Lemma reachable_historyLayout st :
  reachable uuidv1 st -> historyLayout uuidv1 st.
Proof.
  induction 1 as [| req st1 _ IH].
  - split; [reflexivity |]. split; [reflexivity |].
    intros k e Hk. discriminate Hk.
  - by apply historyLayout_step.
Qed.

(** X9. In every state the service reaches, the history holds twenty
    entries per identifier issued, deck after deck: entry [j] is card
    [j mod 20] of the deck that got the identifier number [j / 20]. *)
Theorem history_in_decks st :
  reachable uuidv1 st ->
  length (cardHistory st) = 20 * uuidCalls st
  /\ forall j e, cardHistory st !! j = Some e ->
       cardId e = j mod 20 /\ deckId e = uuidv1 (j / 20).
Proof.
  intros H. destruct (reachable_historyLayout st H) as (_ & Hlen & He).
  split; [assumption |]. intros j e Hj.
  destruct (He j e Hj) as (H1 & H2 & _). by split.
Qed.

(** X10. In every state the service reaches, the store holds exactly one
    array per history entry and entry [j] holds array [j]: every entry
    has an [errors] array of its own, none is shared between two entries
    and none is missing. *)
Theorem history_entries_own_their_arrays st :
  reachable uuidv1 st ->
  length (heap st) = length (cardHistory st)
  /\ (forall j e, cardHistory st !! j = Some e ->
        entry_errors e = Some j /\ is_Some (heap st !! j))
  /\ (forall i j e e',
        cardHistory st !! i = Some e -> cardHistory st !! j = Some e' ->
        entry_errors e = entry_errors e' -> i = j).
Proof.
  intros H. destruct (reachable_historyLayout st H) as (Hheap & _ & He).
  split; [assumption |]. split.
  - intros j e Hj. destruct (He j e Hj) as (_ & _ & Hloc).
    split; [assumption |]. apply lookup_lt_is_Some.
    rewrite Hheap. by apply lookup_lt_Some in Hj.
  - intros i j e e' Hi Hj Heq.
    destruct (He i e Hi) as (_ & _ & Hli).
    destruct (He j e' Hj) as (_ & _ & Hlj). congruence.
Qed.

End LayoutProperties.

Lemma history_in_decks_witness :
  let st := snd (postCards testIds (JsonRequest (VArr sampleDeck))
                   initialState) in
  length (cardHistory st) = 20 * uuidCalls st
  /\ forall j e, cardHistory st !! j = Some e ->
       cardId e = j mod 20 /\ deckId e = testIds (j / 20).
Proof.
  apply (history_in_decks testIds).
  apply later_step, later_refl.
Defined.

Lemma history_entries_own_their_arrays_witness :
  let st := snd (postCards testIds (JsonRequest (VArr sampleDeck))
                   initialState) in
  length (heap st) = length (cardHistory st)
  /\ (forall j e, cardHistory st !! j = Some e ->
        entry_errors e = Some j /\ is_Some (heap st !! j))
  /\ (forall i j e e',
        cardHistory st !! i = Some e -> cardHistory st !! j = Some e' ->
        entry_errors e = entry_errors e' -> i = j).
Proof.
  apply (history_entries_own_their_arrays testIds).
  apply later_step, later_refl.
Defined.

(** ** The first normaliser *)

Lemma split_nonempty s : split s <> [].
Proof.
  destruct s as [|c s]; [discriminate |]. cbn [split].
  destruct (c =? comma)%N; [discriminate |]. by destruct (split s).
Qed.

Lemma split_app s e : split (s ++ comma :: e) = split s ++ split e.
Proof.
  induction s as [|c s IH]; [reflexivity |].
  cbn [app split]. destruct (c =? comma)%N.
  - by rewrite IH.
  - rewrite IH. pose proof (split_nonempty s) as Hne.
    by destruct (split s).
Qed.

Lemma split_two s : comma ∈ s -> 2 <= length (split s).
Proof.
  induction s as [|c s IH]; [intros H; by apply elem_of_nil in H |].
  intros H. cbn [split]. destruct (N.eqb_spec c comma) as [-> | Hne].
  - pose proof (split_nonempty s). destruct (split s); [done | cbn; lia].
  - apply elem_of_cons in H as [Heq | H]; [congruence |].
    specialize (IH H). destruct (split s) as [|p ps]; cbn in *; lia.
Qed.

(** X11. In the first normaliser a delimited string is read by position:
    once it has two parts, whatever follows a further comma is never
    looked at, so the string and the string with more parts appended
    give the same card. *)
Theorem strict_string_ignores_extra_parts fallback s extra :
  comma ∈ s ->
  Strict.preProcess fallback (VStr (s ++ comma :: extra))
  = Strict.preProcess fallback (VStr s).
Proof.
  intros Hs. unfold Strict.preProcess. rewrite split_app.
  pose proof (split_two s Hs) as Hlen.
  destruct (split s) as [|p0 [|p1 ps]]; cbn in Hlen; try lia.
  reflexivity.
Qed.

Lemma strict_string_ignores_extra_parts_witness :
  Strict.preProcess "Invalid format" (VStr (js "A,1" ++ comma :: js "zz,9"))
  = Strict.preProcess "Invalid format" (VStr (js "A,1")).
Proof.
  apply (strict_string_ignores_extra_parts "Invalid format" (js "A,1")
           (js "zz,9")).
  apply list_elem_of_In. cbn. auto.
Defined.

Example strict_normaliser_examples :
  map (Strict.preProcess "Invalid format")
    [ VStr (js "A,1"); VStr (js "1,A"); VStr (js " D , 3 "); VStr (js "A");
      VStr (js "A,1,zz"); VStr (js "7,3");
      VArr [VStr (js "A"); num 1]; VArr [num 1; VStr (js "A")];
      VArr [VStr (js "A"); num 1; num 2];
      VObj [(js "number", num 5); (js "alphabet", VStr (js "B"))];
      VObj [(js "sideA", VStr (js "B")); (js "sideB", num 5)];
      VNull ]
  = [ Strict.mkCard (VStr (js "A")) (num 1) None;
      Strict.invalid "Invalid format";
      Strict.mkCard (VStr (js "D")) (num 3) None;
      Strict.invalid "Invalid format";
      Strict.mkCard (VStr (js "A")) (num 1) None;
      Strict.mkCard (VStr (js "7")) (num 3) None;
      Strict.mkCard (VStr (js "A")) (num 1) None;
      Strict.invalid "Invalid format";
      Strict.invalid "Invalid format";
      Strict.mkCard (VStr (js "B")) (num 5) None;
      Strict.invalid "Invalid format";
      Strict.invalid "Invalid format" ].
Proof. reflexivity. Qed.

(** X12. In the first normaliser a record whose [number] is 0 is always
    rejected as 'Invalid format', whatever its letter, because the test
    [!card.number] takes 0 for a missing field; the same letter and digit
    as a two-element sequence are accepted. *)
Theorem strict_record_rejects_zero fallback fields l n :
  Strict.getProp fields "number" = VNum n ->
  isZero n = true ->
  Strict.preProcess fallback (VObj fields) = Strict.invalid "Invalid format"
  /\ Strict.preProcess fallback (VArr [VStr l; VNum n])
     = Strict.mkCard (VStr l) (VNum n) None.
Proof.
  intros Hn Hz. split; [| reflexivity].
  unfold Strict.preProcess. rewrite Hn.
  assert (truthy (VNum n) = false) as ->.
  { destruct n; try discriminate Hz. cbn [truthy]. by rewrite Hz. }
  cbn [negb orb]. by rewrite orb_true_r.
Qed.

Lemma strict_record_rejects_zero_witness :
  Strict.preProcess "Invalid format"
    (VObj [(js "alphabet", VStr (js "A")); (js "number", num 0)])
  = Strict.invalid "Invalid format"
  /\ Strict.preProcess "Invalid format" (VArr [VStr (js "A"); num 0])
     = Strict.mkCard (VStr (js "A")) (num 0) None.
Proof.
  apply (strict_record_rejects_zero "Invalid format"
           [(js "alphabet", VStr (js "A")); (js "number", num 0)]
           (js "A") (ofZ 0)); reflexivity.
Defined.

(** ** From the first normaliser to the last *)

Lemma trimStart_suffix s : exists pre, s = pre ++ trimStart s.
Proof.
  induction s as [|c s [pre IH]]; [by exists [] |].
  cbn [trimStart]. destruct (isWhiteSpace c); [| by exists []].
  exists (c :: pre). cbn. by rewrite <- IH.
Qed.

Lemma trimStart_head s :
  match trimStart s with c :: _ => isWhiteSpace c = false | [] => True end.
Proof.
  induction s as [|c s IH]; [exact I |].
  cbn [trimStart]. by destruct (isWhiteSpace c) eqn:E.
Qed.

Lemma trimStart_fixed s :
  match s with c :: _ => isWhiteSpace c = false | [] => True end ->
  trimStart s = s.
Proof. destruct s as [|c s]; [reflexivity |]. cbn. by intros ->. Qed.

Lemma trimEnd_prefix s : exists suf, s = trimEnd s ++ suf.
Proof.
  unfold trimEnd. destruct (trimStart_suffix (rev s)) as [pre H].
  exists (rev pre). rewrite <- rev_app_distr, <- H. by rewrite rev_involutive.
Qed.

Lemma trim_idempotent s : trim (trim s) = trim s.
Proof.
  unfold trim. set (u := trimStart s).
  assert (trimStart (trimEnd u) = trimEnd u) as ->.
  { apply trimStart_fixed. destruct (trimEnd_prefix u) as [suf Hu].
    pose proof (trimStart_head s) as Hhead. fold u in Hhead.
    destruct (trimEnd u) as [|c r]; [exact I |].
    rewrite Hu in Hhead. exact Hhead. }
  unfold trimEnd. rewrite rev_involutive.
  f_equal. apply trimStart_fixed, trimStart_head.
Qed.

Lemma isNaN_trim s : isNaN (trim s) = isNaN s.
Proof. unfold isNaN, isNumeric. by rewrite trim_idempotent. Qed.

(** X13. Whenever the first normaliser accepts a string, a sequence or
    a two-field record, with a letter that is not numeric text, the last
    normaliser accepts it too, with the same letter and the same digit:
    the inputs of the strict format keep their meaning. *)
Theorem flexible_agrees_with_strict fallback raw l x :
  Strict.preProcess fallback raw = Strict.mkCard (VStr l) (VNum x) None ->
  isNaN l = true ->
  match raw with VObj fields => length fields = 2 | _ => True end ->
  normalized raw = (VStr l, VNum x) /\ parseErrors raw = [].
Proof.
  intros Hstrict Hl Hshape. pose proof (isNaN_nonempty l Hl) as Hne.
  destruct raw as [| | | |s|items|fields]; try discriminate Hstrict.
  - (* a delimited string *)
    unfold Strict.preProcess in Hstrict.
    destruct (split s) as [|p0 [|p1 ps]] eqn:Hsplit; try discriminate Hstrict.
    cbn [nth_error] in Hstrict.
    destruct (bool_decide (p0 = []) || bool_decide (p1 = []) || isNaN p1)
      eqn:Hcond; [discriminate Hstrict |].
    apply orb_false_iff in Hcond as [_ Hp1].
    inversion Hstrict; subst l x; clear Hstrict.
    destruct (normalized_string s) as [-> ->].
    unfold stringParts. rewrite Hsplit. cbn [map List.find].
    unfold numericPart. rewrite Hl, isNaN_trim, Hp1. cbn [negb]. done.
  - (* a sequence *)
    unfold Strict.preProcess in Hstrict.
    destruct (negb (length items =? 2)
              || negb (bool_decide (typeof (nth 0 items VUndefined) = TString))
              || negb (bool_decide (typeof (nth 1 items VUndefined) = TNumber)))
      eqn:Hcond; [discriminate Hstrict |].
    apply orb_false_iff in Hcond as [Hcond _].
    apply orb_false_iff in Hcond as [Hlen _].
    apply negb_false_iff, Nat.eqb_eq in Hlen.
    destruct items as [|c0 [|c1 [|c2 items]]]; try discriminate Hlen.
    cbn [nth] in Hstrict. inversion Hstrict; subst c0 c1.
    apply two_items_normalized; [assumption |].
    eexists. split; [by left | by left].
  - (* a record of two fields *)
    destruct fields as [|[k1 v1] [|[k2 v2] [|f fields]]];
      try discriminate Hshape.
    unfold Strict.preProcess in Hstrict.
    destruct (negb (truthy (Strict.getProp [(k1, v1); (k2, v2)] "alphabet"))
              || negb (truthy (Strict.getProp [(k1, v1); (k2, v2)] "number"))
              || negb (bool_decide
                         (typeof (Strict.getProp [(k1, v1); (k2, v2)]
                                    "alphabet") = TString))
              || negb (bool_decide
                         (typeof (Strict.getProp [(k1, v1); (k2, v2)]
                                    "number") = TNumber)))
      eqn:Hcond; [discriminate Hstrict |]. clear Hcond.
    inversion Hstrict as [[Ha Hn]]; clear Hstrict.
    assert ([v1; v2] = [VStr l; VNum x] \/ [v1; v2] = [VNum x; VStr l])
      as Hitems.
    { unfold Strict.getProp in Ha, Hn. cbn [List.find fst snd] in Ha, Hn.
      repeat case_bool_decide; subst; cbn [snd] in *; subst;
        try discriminate; auto. }
    rewrite Ha, Hn. apply two_items_normalized; [assumption |].
    exists [v1; v2]. split; [| assumption].
    right. eexists. split; reflexivity.
Qed.

Lemma flexible_agrees_with_strict_witness :
  normalized (VStr (js " D , 3 ")) = (VStr (js "D"), num 3)
  /\ parseErrors (VStr (js " D , 3 ")) = [].
Proof.
  apply (flexible_agrees_with_strict "Invalid format" (VStr (js " D , 3 "))
           (js "D") (ofZ 3)).
  - reflexivity.
  - reflexivity.
  - exact I.
Defined.

(** Where the two part: a letter that is numeric text, a record with
    more fields, an empty string in a sequence, a digit before the
    letter. *)
Example strict_and_flexible_differ :
  map (fun raw =>
         (Strict.preProcess "Invalid format" raw, normalized raw))
    [ VStr (js "7,3");
      VObj [(js "note", VStr (js "x")); (js "alphabet", VStr (js "A"));
            (js "number", num 1)];
      VArr [VStr (js ""); num 1];
      VStr (js "1,A") ]
  = [ (Strict.mkCard (VStr (js "7")) (num 3) None, (VNull, VNull));
      (Strict.mkCard (VStr (js "A")) (num 1) None, (VStr (js "x"), num 1));
      (Strict.mkCard (VStr (js "")) (num 1) None, (VNull, VNull));
      (Strict.invalid "Invalid format", (VStr (js "A"), num 1)) ].
Proof. reflexivity. Qed.

(** ** The first validator *)

Lemma strict_validateCard_run card :
  Strict.validateCard card =
  if Strict.hasError card then card
  else Strict.mkCard (Strict.alphabet card) (Strict.number card)
         (if Strict.pairingInvalid card then Some msgPairing
          else if Strict.numberInvalid card then Some msgNumber
          else if Strict.letterInvalid card then Some Strict.msgLetter
          else Strict.error card).
Proof.
  unfold Strict.validateCard. destruct (Strict.hasError card); [reflexivity |].
  destruct (Strict.letterInvalid card), (Strict.numberInvalid card),
    (Strict.pairingInvalid card); try reflexivity.
  by destruct card.
Qed.

(** X14. The first validator leaves a card that already has an error as
    it is; otherwise it keeps the letter and the digit and reports at
    most one message, that of the last rule broken in the order letter,
    digit, pairing: a later rule overwrites the message of an earlier
    one. *)
Theorem strict_validator_keeps_last_message card :
  Strict.validateCard card =
  if Strict.hasError card then card
  else Strict.mkCard (Strict.alphabet card) (Strict.number card)
         (if Strict.pairingInvalid card then Some msgPairing
          else if Strict.numberInvalid card then Some msgNumber
          else if Strict.letterInvalid card then Some Strict.msgLetter
          else Strict.error card).
Proof. exact (strict_validateCard_run card). Qed.

Example strict_validator_examples :
  map (fun raw =>
         Strict.error
           (Strict.validateCard (Strict.preProcess "Invalid format" raw)))
    [ VStr (js "A,1"); VStr (js "d,28"); VStr (js "D,28"); VStr (js "D,4");
      VStr (js "x,1"); VStr (js "AB,1"); VStr (js "Hello,1");
      VStr (js "Test") ]
  = [ None; Some msgNumber; Some msgPairing; Some msgPairing;
      Some Strict.msgLetter; None; None; Some "Invalid format"%string ].
Proof. reflexivity. Qed.

(** X15. The first validator finds no fault in a card whose letter is a
    string exactly when the string contains a capital A-Z somewhere, the
    digit is an integer in [0, 9], and the digit is 3 when the string is
    "D". So every card that is valid under the final rules is valid
    here, and strings of several characters with a capital are too. *)
Theorem strict_valid_iff s n :
  (Strict.error (Strict.validateCard (Strict.mkCard (VStr s) n None)) = None
   <-> (exists c, c ∈ s /\ (65 <= c <= 90)%N) /\ digit0to9 n
       /\ (VStr s = VStr (js "D") -> isIntegerValue n 3))
  /\ (validFaces (VStr s, n) ->
      Strict.error (Strict.validateCard (Strict.mkCard (VStr s) n None))
      = None).
Proof.
  assert (Strict.error (Strict.validateCard (Strict.mkCard (VStr s) n None))
          = None
          <-> (exists c, c ∈ s /\ (65 <= c <= 90)%N) /\ digit0to9 n
              /\ (VStr s = VStr (js "D") -> isIntegerValue n 3)) as Hiff.
  { rewrite strict_validateCard_run.
    cbn [Strict.hasError Strict.error Strict.alphabet Strict.number].
    pose proof (numberValid_spec (mkCard 0 (VStr s) n None)) as Hnum.
    pose proof (pairingValid_spec (mkCard 0 (VStr s) n None)) as Hpair.
    cbn [alphabet number] in Hnum, Hpair.
    change (numberInvalid (mkCard 0 (VStr s) n None))
      with (Strict.numberInvalid (Strict.mkCard (VStr s) n None)) in Hnum.
    change (pairingInvalid (mkCard 0 (VStr s) n None))
      with (Strict.pairingInvalid (Strict.mkCard (VStr s) n None)) in Hpair.
    rewrite <- Hnum, <- Hpair.
    assert (Strict.letterInvalid (Strict.mkCard (VStr s) n None) = false
            <-> exists c, c ∈ s /\ (65 <= c <= 90)%N) as Hlet.
    { unfold Strict.letterInvalid.
      cbn [Strict.alphabet isNull orb Strict.testUpper].
      rewrite negb_false_iff, existsb_exists. unfold Strict.isUpper. split.
      - intros (c & Hc & Hr). exists c. apply andb_true_iff in Hr as [H1 H2].
        apply N.leb_le in H1, H2. split; [by apply list_elem_of_In | lia].
      - intros (c & Hc & Hr). exists c. split; [by apply list_elem_of_In |].
        apply andb_true_iff. split; apply N.leb_le; lia. }
    rewrite <- Hlet.
    destruct (Strict.letterInvalid _), (Strict.numberInvalid _),
      (Strict.pairingInvalid _); split; try discriminate; try done;
      intros (? & ? & ?); discriminate. }
  split; [exact Hiff |].
  intros ((c & Hc & Hr) & Hd & Hp). apply Hiff.
  cbn [fst snd] in *. inversion Hc; subst s.
  split; [| by split]. exists c. split; [constructor | assumption].
Qed.

(** ** Cards of a batch do not interfere *)

(** X16. Normalising and then validating a batch of any length, from any
    store, gives for each card what the two give for that card alone
    from an empty store: the cards share no array, so the result of a
    card depends neither on the other cards nor on what the store held.
    The store grows by one array per card and the arrays it held are
    left as they were. *)
Theorem batch_is_cardwise raws st :
  let r := (let* cleanedCards := traverseFrom preProcess 0 raws in
            validateCards cleanedCards) st in
  map (snapshot (heap (snd r))) (fst r) = processed raws
  /\ exists new, heap (snd r) = heap st ++ new /\ length new = length raws.
Proof.
  intros r. subst r. rewrite pipeline_run. cbn [fst snd withHeap heap].
  split; [apply snapshot_cleaned |].
  exists (map finalErrors raws). split; [reflexivity | apply length_map].
Qed.

Example batch_is_cardwise_example :
  let r := (let* cleanedCards :=
              traverseFrom preProcess 0
                [VStr (js "D,4"); VNull; VArr [VStr (js "dd"); num 28]] in
            validateCards cleanedCards) (mkState [[msgLetter]] [] 0) in
  map (snapshot (heap (snd r))) (fst r)
  = [ mkCardJSON 0 (VStr (js "D")) (num 4) (Some [msgPairing]);
      mkCardJSON 1 VNull VNull (Some [msgUnknown]);
      mkCardJSON 2 (VStr (js "dd")) (num 28) (Some [msgLetter; msgNumber]) ]
  /\ heap (snd r)
     = [[msgLetter]; [msgPairing]; [msgUnknown]; [msgLetter; msgNumber]].
Proof. split; reflexivity. Qed.
